(** * The Eufy plugin: login, challenge handling and device discovery

    A shallow embedding of [EufySecurityPlugin] (the two variants of the
    plugin's main file) and of [EufyLogger] (src/logger.ts).

    The plugin is asynchronous glue code.  Each [async] method is cut at
    its [await]s into straight-line segments; a segment is a function of
    the plugin's state that also returns the calls it makes on its
    collaborators (the host's logger, settings store and device manager,
    and the vendor client), in order.  A labelled machine then runs the
    segments in any order the JavaScript event loop allows. *)

From stdpp Require Import base option list gmap strings.
From Stdlib Require Import Ascii String.

Local Open Scope string_scope.
Local Open Scope list_scope.

(** ** JavaScript values used by the plugin *)

(** A setting, a code or an identifier is a string or [undefined]. *)
Definition truthy (v : option string) : bool :=
  match v with
  | Some s => negb (String.eqb s "")
  | None => false
  end.

Definition dquote : string := String (ascii_of_nat 34) "".
Definition backslash : string := String (ascii_of_nat 92) "".

(** [JSON.stringify] on an array of strings: every string is quoted as
    ECMAScript's QuoteJSONString does, the items are joined by commas. *)
Definition hexDigit (n : nat) : string :=
  match String.get n "0123456789abcdef" with
  | Some c => String c ""
  | None => ""
  end.

Definition QuoteJSONChar (c : ascii) : string :=
  let n := nat_of_ascii c in
  if Nat.eqb n 8 then backslash +:+ "b"
  else if Nat.eqb n 9 then backslash +:+ "t"
  else if Nat.eqb n 10 then backslash +:+ "n"
  else if Nat.eqb n 12 then backslash +:+ "f"
  else if Nat.eqb n 13 then backslash +:+ "r"
  else if Nat.eqb n 34 then backslash +:+ dquote
  else if Nat.eqb n 92 then backslash +:+ backslash
  else if Nat.ltb n 32
       then backslash +:+ "u00" +:+ hexDigit (n / 16) +:+ hexDigit (n mod 16)
  else String c "".

Fixpoint QuoteJSONBody (s : string) : string :=
  match s with
  | EmptyString => ""
  | String c r => QuoteJSONChar c +:+ QuoteJSONBody r
  end.

Definition QuoteJSONString (s : string) : string :=
  dquote +:+ QuoteJSONBody s +:+ dquote.

Fixpoint joinWith (sep : string) (l : list string) : string :=
  match l with
  | [] => ""
  | [x] => x
  | x :: r => x +:+ sep +:+ joinWith sep r
  end.

Definition JSON_stringify (params : list string) : string :=
  "[" +:+ joinWith "," (QuoteJSONString <$> params) +:+ "]".

(** ** The host's logger and [EufyLogger] (src/logger.ts) *)

(** The methods of the host's [Logger]: [v], [d], [i], [w], [e], [a]. *)
Inductive Level := LevelV | LevelD | LevelI | LevelW | LevelE | LevelA.

Module EufyLogger.

(** What [EufyLogger] does to the [Logger] it wraps. *)
Inductive LogCall :=
| Log (lvl : Level) (text : string)
| LogClearAlerts.

Definition getMessage (message : option string) (optionalParams : list string)
  : string :=
  let msg := if truthy message then default "" message else "" in
  if Nat.ltb 0 (List.length optionalParams)
  then msg +:+ " " +:+ JSON_stringify optionalParams
  else msg.

Definition trace (message : option string) (optionalParams : list string) :=
  Log LevelV (getMessage message optionalParams).
Definition debug (message : option string) (optionalParams : list string) :=
  Log LevelD (getMessage message optionalParams).
Definition info (message : option string) (optionalParams : list string) :=
  Log LevelI (getMessage message optionalParams).
Definition warn (message : option string) (optionalParams : list string) :=
  Log LevelW (getMessage message optionalParams).
Definition error (message : option string) (optionalParams : list string) :=
  Log LevelE (getMessage message optionalParams).
Definition alert (message : option string) (optionalParams : list string) :=
  Log LevelA (getMessage message optionalParams).
Definition clearAlerts : LogCall := LogClearAlerts.

End EufyLogger.

(** ** Data the plugin exchanges with the vendor client and the host *)

(** A client object delivered by [EufySecurity.initialize]; clients are
    numbered in the order of the [initialize] calls that create them. *)
Definition ClientId := nat.

Inductive P2PConnectionType := QUICKEST.

Record EufySecurityConfig := {
  username : option string;
  password : option string;
  country : option string;
  trustedDeviceName : option string;
  p2pConnectionSetup : P2PConnectionType;
  pollingIntervalMinutes : nat;
  eventDurationSeconds : nat;
}.

Record CaptchaOptions := {
  captchaCode : string;
  captchaId : option string;
}.

(** The argument of [client.connect]. *)
Record ConnectOptions := {
  verifyCode : option string;
  captcha : option CaptchaOptions;
  force : bool;
}.

(** What a discovered device reports when the methods of the vendor's
    [Device] are called: [isCamera()], [getName()], [getModel()],
    [getSerial()], [getSoftwareVersion()], [getStationSerial()],
    [hasBattery()] and [hasProperty(name)] (true for the names in
    [properties]). *)
Record EufyDevice := {
  isCamera : bool;
  getName : string;
  getModel : string;
  getSerial : string;
  getSoftwareVersion : string;
  getStationSerial : string;
  hasBattery : bool;
  properties : list string;
}.

Definition hasProperty (d : EufyDevice) (name : string) : bool :=
  existsb (String.eqb name) (properties d).

(** A value of the host language, as far as the plugin tests one, and
    its truth value in a condition. *)
Inductive JsValue :=
| JsUndefined
| JsBoolean (b : bool)
| JsString (s : string)
| JsFunction.

Definition ToBoolean (x : JsValue) : bool :=
  match x with
  | JsUndefined => false
  | JsBoolean b => b
  | JsString s => negb (String.eqb s "")
  | JsFunction => true
  end.

(** [eufyDevice.isCamera], the member read without a call.  [isCamera]
    is a method of the vendor's [Device], so what is read is the
    function, whatever calling it would return. *)
Definition isCamera_member (d : EufyDevice) : JsValue := JsFunction.

Record EufyStation := {
  stationName : string;
  stationModel : string;
}.

Inductive ScryptedInterface := VideoCamera | Camera | OnOff | Battery | MotionSensor.

Inductive ScryptedDeviceType := CameraType.

Record DeviceInfo := {
  model : string;
  manufacturer : string;
  firmware : string;
  serialNumber : string;
}.

(** The registration descriptor handed to [deviceManager.onDeviceDiscovered]. *)
Record Device := {
  info : DeviceInfo;
  nativeId : string;
  deviceName : string;
  type : ScryptedDeviceType;
  interfaces : list ScryptedInterface;
}.

(** The handle kept in [this.devices]: the fields the constructor stores. *)
Record EufySecurityCamera := {
  cameraNativeId : string;
  cameraClient : option ClientId;
  cameraDevice : EufyDevice;
}.

(** The events of the vendor client the plugin listens to, with their
    arguments. *)
Inductive EventName :=
| DeviceAddedEv | StationAddedEv | TfaRequestEv | CaptchaRequestEv
| ConnectEv | PushConnectEv | PushCloseEv.

#[global] Instance EventName_eq_dec : EqDecision EventName.
Proof. solve_decision. Defined.

Inductive ClientEvent :=
| EmitDeviceAdded (eufyDevice : EufyDevice)
| EmitStationAdded (station : EufyStation)
| EmitTfaRequest
| EmitCaptchaRequest (id captchaImage : string)
| EmitConnect
| EmitPushConnect
| EmitPushClose.

Definition eventName (ev : ClientEvent) : EventName :=
  match ev with
  | EmitDeviceAdded _ => DeviceAddedEv
  | EmitStationAdded _ => StationAddedEv
  | EmitTfaRequest => TfaRequestEv
  | EmitCaptchaRequest _ _ => CaptchaRequestEv
  | EmitConnect => ConnectEv
  | EmitPushConnect => PushConnectEv
  | EmitPushClose => PushCloseEv
  end.

(** A call the plugin makes on one of its collaborators. *)
Inductive Call :=
| HostLog (l : EufyLogger.LogCall)
| GetSetting (key : string)
| PutSetting (key value : string)
| Initialize (config : EufySecurityConfig) (c : ClientId)
| On (c : ClientId) (ev : EventName)
| Connect (c : ClientId) (options : ConnectOptions)
| GetStation (c : ClientId) (serial : string)
| OnDeviceDiscovered (device : Device).

(** ** The state the plugin reads and writes

    [name], [client] and [devices] are fields of the plugin object.
    [storage] is the host's settings store behind [settingsStorage]:
    [putSetting] of a stored setting writes it, [values] reads it back,
    or the setting's [defaultValue] when nothing is stored.  [alerts] is
    the host's alert log: [log.a] appends to it, [log.clearAlerts]
    empties it.  [listeners] are the listeners registered on the vendor
    clients, [created] counts the clients [EufySecurity.initialize] was
    asked for.  [calls] lists every call made so far, oldest first. *)
Record World := {
  name : string;
  storage : gmap string string;
  client : option ClientId;
  devices : gmap string EufySecurityCamera;
  alerts : list string;
  listeners : list (ClientId * EventName);
  created : nat;
  calls : list Call;
}.

Definition defaultValue (key : string) : option string :=
  if String.eqb key "country" then Some "US" else None.

(** [values.key]: the stored text, or the default of the setting when
    nothing is stored or the stored text is empty. *)
Definition valuesOf (stored : gmap string string) (key : string) : option string :=
  match stored !! key with
  | Some v => if String.eqb v "" then defaultValue key else Some v
  | None => defaultValue key
  end.

Definition values (w : World) (key : string) : option string :=
  valuesOf (storage w) key.

(** How the host's logger reacts to a call. *)
Definition logEffect (l : EufyLogger.LogCall) (log : list string) : list string :=
  match l with
  | EufyLogger.Log LevelA text => log ++ [text]
  | EufyLogger.Log _ _ => log
  | EufyLogger.LogClearAlerts => []
  end.

(** ** Straight-line code over the state *)

Definition Prog (A : Type) : Type := World -> A * World.

Definition ret {A} (a : A) : Prog A := fun w => (a, w).

Definition bind {A B} (m : Prog A) (k : A -> Prog B) : Prog B :=
  fun w => let (a, w') := m w in k a w'.

#[global] Instance Prog_ret : MRet Prog := @ret.
#[global] Instance Prog_bind : MBind Prog := fun A B k m => bind m k.

Definition record (c : Call) (w : World) : World :=
  {| name := name w; storage := storage w; client := client w;
     devices := devices w; alerts := alerts w; listeners := listeners w;
     created := created w; calls := calls w ++ [c] |}.

(** A method of [this.logger]. *)
Definition logger (l : EufyLogger.LogCall) : Prog unit := fun w =>
  (tt, record (HostLog l)
    {| name := name w; storage := storage w; client := client w;
       devices := devices w; alerts := logEffect l (alerts w);
       listeners := listeners w; created := created w; calls := calls w |}).

(** [this.settingsStorage.values.key] *)
Definition getValue (key : string) : Prog (option string) := fun w =>
  (values w key, record (GetSetting key) w).

(** [this.settingsStorage.putSetting(key, value)], for a stored setting
    without an [onPut] hook. *)
Definition putSetting (key value : string) : Prog unit := fun w =>
  (tt, record (PutSetting key value)
    {| name := name w; storage := <[key := value]> (storage w);
       client := client w; devices := devices w; alerts := alerts w;
       listeners := listeners w; created := created w; calls := calls w |}).

(** [EufySecurity.initialize(config, logger)]: the call is made now, the
    client it creates is delivered when the promise resolves. *)
Definition initialize (mk : ClientId -> Call) : Prog ClientId := fun w =>
  (created w, record (mk (created w))
    {| name := name w; storage := storage w; client := client w;
       devices := devices w; alerts := alerts w; listeners := listeners w;
       created := S (created w); calls := calls w |}).

(** [this.client = c] *)
Definition setClient (c : ClientId) : Prog unit := fun w =>
  (tt, {| name := name w; storage := storage w; client := Some c;
          devices := devices w; alerts := alerts w; listeners := listeners w;
          created := created w; calls := calls w |}).

(** [this.client.on(ev, handler)] *)
Definition on (c : ClientId) (ev : EventName) : Prog unit := fun w =>
  (tt, record (On c ev)
    {| name := name w; storage := storage w; client := client w;
       devices := devices w; alerts := alerts w;
       listeners := listeners w ++ [(c, ev)];
       created := created w; calls := calls w |}).

(** [this.devices.set(nativeId, camera)] *)
Definition devicesSet (nativeId : string) (camera : EufySecurityCamera) : Prog unit :=
  fun w =>
  (tt, {| name := name w; storage := storage w; client := client w;
          devices := <[nativeId := camera]> (devices w); alerts := alerts w;
          listeners := listeners w; created := created w; calls := calls w |}).

Definition call (c : Call) : Prog unit := fun w => (tt, record c w).

Definition getName_ : Prog string := fun w => (name w, w).
Definition getClient : Prog (option ClientId) := fun w => (client w, w).

(** ** [EufySecurityPlugin]

    The source holds two variants of the plugin.  They differ in the
    camera class and in the interfaces [deviceAdded] declares: [Rtsp]
    (the camera streams from an RTSP url) asks the device for its
    features, [Snapshot] (the camera polls a picture url) declares a
    fixed list.  Everything else is the same code. *)
Inductive Variant := Rtsp | Snapshot.

(** Where an [async] method stands when it hands control back. *)
Inductive Completion :=
| Returned
| Threw (message : string)
| AwaitsInitialize (c : ClientId)
| AwaitsConnect (c : ClientId).

Definition tfaAlert : string :=
  "Login failed: 2FA is enabled, check your email or texts for your code, then enter it into the Two Factor Code setting to conplete login.".

Definition captchaAlertPrefix : string :=
  "Login failed: Captcha was requested, fill out the Captcha setting to conplete login. </br> <img src=" +:+ dquote.

Definition captchaAlertSuffix : string := dquote +:+ " />".

Definition captchaAlert (captchaImage : string) : string :=
  captchaAlertPrefix +:+ captchaImage +:+ captchaAlertSuffix.

Section Plugin.

Variable variant : Variant.

(** [initializeClient], up to its [await] (the config is built and
    [EufySecurity.initialize] called). *)
Definition initializeClient_start : Prog ClientId :=
  email ← getValue "email";
  pass ← getValue "password";
  ctry ← getValue "country";
  trusted ← getValue "trustedDeviceName";
  initialize (Initialize
    {| username := email; password := pass; country := ctry;
       trustedDeviceName := trusted; p2pConnectionSetup := QUICKEST;
       pollingIntervalMinutes := 10; eventDurationSeconds := 10 |}).

(** [!values.email || !values.email]: the right operand is evaluated
    only when the left one is false. *)
Definition credentialsMissing : Prog bool :=
  e1 ← getValue "email";
  if negb (truthy e1) then mret true
  else e2 ← getValue "email"; mret (negb (truthy e2)).

(** [tryLogin], up to the [await] inside [initializeClient]. *)
Definition tryLogin_start : Prog Completion :=
  logger EufyLogger.clearAlerts;;
  missing ← credentialsMissing;
  if (missing : bool) then
    logger (EufyLogger.alert
      (Some "Enter your Eufy email and password to complete setup.") []);;
    mret (Threw "Eufy email and password are missing.")
  else
    c ← initializeClient_start;
    mret (AwaitsInitialize c).

(** [initializeClient], once [EufySecurity.initialize] has delivered
    client [c]: the assignment and the seven registrations. *)
Definition initializeClient_resume (c : ClientId) : Prog unit :=
  setClient c;;
  on c DeviceAddedEv;;
  on c StationAddedEv;;
  on c TfaRequestEv;;
  on c CaptchaRequestEv;;
  on c ConnectEv;;
  on c PushConnectEv;;
  on c PushCloseEv.

(** [tryLogin], from the return of [initializeClient] to the [await]
    of [connect].  [this.client] is read at this point. *)
Definition tryLogin_resume (twoFactorCode captchaCode : option string)
  : Prog Completion :=
  captchaOptions ←
    (if truthy captchaCode then
       id ← getValue "captchaId";
       mret (Some {| captchaCode := default "" captchaCode; captchaId := id |})
     else mret None);
  logger (EufyLogger.debug (Some "connect client") []);;
  this_client ← getClient;
  match this_client with
  | Some c =>
      call (Connect c {| verifyCode := twoFactorCode;
                         captcha := captchaOptions; force := false |});;
      mret (AwaitsConnect c)
  | None => mret (Threw "TypeError")
  end.

(** [tryLogin] run to its [connect] call with nothing in between. *)
Definition tryLogin (twoFactorCode captchaCode : option string)
  : Prog Completion :=
  r ← tryLogin_start;
  match r with
  | AwaitsInitialize c =>
      initializeClient_resume c;;
      tryLogin_resume twoFactorCode captchaCode
  | _ => mret r
  end.

(** The prefix [[${this.name}] (${new Date().toLocaleString()}) ] of
    the log lines; [now] is the date as printed. *)
Definition stamp (now : string) : Prog string :=
  n ← getName_;
  mret ("[" +:+ n +:+ "] (" +:+ now +:+ ") ").

(** The listeners registered by [initializeClient]. *)
Definition onTfaRequest : Prog unit :=
  logger (EufyLogger.alert (Some tfaAlert) []).

Definition onCaptchaRequest (id captchaImage : string) : Prog unit :=
  logger (EufyLogger.alert (Some (captchaAlert captchaImage)) []);;
  putSetting "captchaId" id.

Definition onConnect (now : string) : Prog unit :=
  p ← stamp now;
  logger (EufyLogger.debug (Some (p +:+ "Client connected.")) []);;
  logger EufyLogger.clearAlerts.

Definition onPushConnect (now : string) : Prog unit :=
  p ← stamp now;
  logger (EufyLogger.debug (Some (p +:+ "Push Connected.")) []).

Definition onPushClose (now : string) : Prog unit :=
  p ← stamp now;
  logger (EufyLogger.debug (Some (p +:+ "Push Closed.")) []).

(** The interfaces [deviceAdded] declares for a camera. *)
Definition deviceInterfaces (eufyDevice : EufyDevice) : list ScryptedInterface :=
  match variant with
  | Rtsp =>
      [VideoCamera]
      ++ (if hasBattery eufyDevice then [Battery] else [])
      ++ (if hasProperty eufyDevice "motionDetection" then [MotionSensor] else [])
  | Snapshot => [VideoCamera; Camera; OnOff]
  end.

(** [new EufySecurityCamera(nativeId, this.client, eufyDevice)].  The
    [Snapshot] constructor starts [initialize()], which asks the client
    for the camera's station; what follows that [await] touches the
    camera object only. *)
Definition newEufySecurityCamera (nativeId : string) (eufyDevice : EufyDevice)
  : Prog EufySecurityCamera :=
  this_client ← getClient;
  match variant, this_client with
  | Snapshot, Some c => call (GetStation c (getStationSerial eufyDevice))
  | _, _ => mret tt
  end;;
  mret {| cameraNativeId := nativeId; cameraClient := this_client;
          cameraDevice := eufyDevice |}.

Definition deviceAdded (eufyDevice : EufyDevice) (now : string) : Prog unit :=
  p ← stamp now;
  if negb (ToBoolean (isCamera_member eufyDevice)) then
    logger (EufyLogger.info
      (Some (p +:+ "Ignoring unsupported discovered device: "))
      [getName eufyDevice; getModel eufyDevice])
  else
    logger (EufyLogger.info (Some (p +:+ "Device discovered: "))
      [getName eufyDevice; getModel eufyDevice]);;
    let serial := getSerial eufyDevice in
    let device :=
      {| info := {| model := getModel eufyDevice; manufacturer := "Eufy";
                    firmware := getSoftwareVersion eufyDevice;
                    serialNumber := serial |};
         nativeId := serial;
         deviceName := getName eufyDevice;
         type := CameraType;
         interfaces := deviceInterfaces eufyDevice |} in
    camera ← newEufySecurityCamera serial eufyDevice;
    devicesSet serial camera;;
    call (OnDeviceDiscovered device).

Definition stationAdded (station : EufyStation) (now : string) : Prog unit :=
  p ← stamp now;
  logger (EufyLogger.info (Some (p +:+ "Station discovered: "))
    [stationName station; stationModel station;
     "but stations are not currently supported."]).

Definition getDevice (nativeId : string) (w : World) : option EufySecurityCamera :=
  devices w !! nativeId.

Definition releaseDevice (id nativeId now : string) : Prog unit :=
  p ← stamp now;
  logger (EufyLogger.info
    (Some (p +:+ "Device with id '" +:+ nativeId +:+ "' was removed.")) []).

(** ** The event loop *)

Definition handler (ev : ClientEvent) (now : string) : Prog unit :=
  match ev with
  | EmitDeviceAdded d => deviceAdded d now
  | EmitStationAdded s => stationAdded s now
  | EmitTfaRequest => onTfaRequest
  | EmitCaptchaRequest id image => onCaptchaRequest id image
  | EmitConnect => onConnect now
  | EmitPushConnect => onPushConnect now
  | EmitPushClose => onPushClose now
  end.

Definition listens (c : ClientId) (ev : EventName) (l : ClientId * EventName) : bool :=
  Nat.eqb (fst l) c && bool_decide (snd l = ev).

(** [c.emit(ev)]: every listener registered on [c] for [ev] runs. *)
Definition emit (c : ClientId) (ev : ClientEvent) (now : string) (w : World) : World :=
  fold_left (fun w' _ => snd (handler ev now w'))
    (List.filter (listens c (eventName ev)) (listeners w)) w.

(** A [tryLogin] that has been started and is suspended at an [await]. *)
Inductive Pending :=
| AtInitialize (twoFactorCode captchaCode : option string)
| AtInitializeClient (twoFactorCode captchaCode : option string)
| AtConnect (c : ClientId).

(** The plugin and its suspended login attempts, each filed under the
    client its [initialize] call creates. *)
Record Machine := {
  world : World;
  pending : gmap ClientId Pending;
}.

(** What can happen next: the host calls in ([tryLogin] is called by
    the constructor and by the [onPut] hooks of the settings), a
    promise an attempt awaits resolves, or a client emits an event. *)
Inductive Label :=
| CallTryLogin (twoFactorCode captchaCode : option string)
| StoreSetting (key value : string)
| InitializeResolves (c : ClientId)
| InitializeClientReturns (c : ClientId)
| ConnectResolves (c : ClientId)
| Emit (c : ClientId) (ev : ClientEvent) (now : string)
| CallReleaseDevice (id nativeId now : string).

Definition store (key value : string) (w : World) : World :=
  {| name := name w; storage := <[key := value]> (storage w);
     client := client w; devices := devices w; alerts := alerts w;
     listeners := listeners w; created := created w; calls := calls w |}.

Definition step (l : Label) (m : Machine) : option Machine :=
  match l with
  | CallTryLogin twoFactorCode captchaCode =>
      let (r, w) := tryLogin_start (world m) in
      Some {| world := w;
              pending := match r with
                         | AwaitsInitialize c =>
                             <[c := AtInitialize twoFactorCode captchaCode]> (pending m)
                         | _ => pending m
                         end |}
  | StoreSetting key value =>
      Some {| world := store key value (world m); pending := pending m |}
  | InitializeResolves c =>
      match pending m !! c with
      | Some (AtInitialize twoFactorCode captchaCode) =>
          Some {| world := snd (initializeClient_resume c (world m));
                  pending := <[c := AtInitializeClient twoFactorCode captchaCode]>
                               (pending m) |}
      | _ => None
      end
  | InitializeClientReturns c =>
      match pending m !! c with
      | Some (AtInitializeClient twoFactorCode captchaCode) =>
          let (r, w) := tryLogin_resume twoFactorCode captchaCode (world m) in
          Some {| world := w;
                  pending := match r with
                             | AwaitsConnect t => <[c := AtConnect t]> (pending m)
                             | _ => delete c (pending m)
                             end |}
      | _ => None
      end
  | ConnectResolves c =>
      match pending m !! c with
      | Some (AtConnect _) =>
          Some {| world := world m; pending := delete c (pending m) |}
      | _ => None
      end
  | Emit c ev now =>
      Some {| world := emit c ev now (world m); pending := pending m |}
  | CallReleaseDevice id nativeId now =>
      Some {| world := snd (releaseDevice id nativeId now (world m));
              pending := pending m |}
  end.

Fixpoint exec (ls : list Label) (m : Machine) : option Machine :=
  match ls with
  | [] => Some m
  | l :: ls' =>
      match step l m with
      | Some m' => exec ls' m'
      | None => None
      end
  end.

(** The plugin as constructed: no client, no device, and the first
    [tryLogin()] of the constructor under way. *)
Definition fresh (pluginName : string) (stored : gmap string string) : Machine :=
  {| world := {| name := pluginName; storage := stored; client := None;
                 devices := ∅; alerts := []; listeners := [];
                 created := 0; calls := [] |};
     pending := ∅ |}.

Definition boot (pluginName : string) (stored : gmap string string) : Machine :=
  default (fresh pluginName stored)
          (step (CallTryLogin None None) (fresh pluginName stored)).

End Plugin.

(** ** Reading the calls back *)

(** The calls made between two states of the same run. *)
Definition emitted (before after : World) : list Call :=
  drop (List.length (calls before)) (calls after).

Definition connectCalls (cs : list Call) : list (ClientId * ConnectOptions) :=
  omap (fun c => match c with Connect t o => Some (t, o) | _ => None end) cs.

Definition initializeCalls (cs : list Call) : list (EufySecurityConfig * ClientId) :=
  omap (fun c => match c with Initialize g t => Some (g, t) | _ => None end) cs.

Definition registrations (cs : list Call) : list Device :=
  omap (fun c => match c with OnDeviceDiscovered d => Some d | _ => None end) cs.

(** The text handed to the host's logger, with its level. *)
Definition messages (cs : list Call) : list (Level * string) :=
  omap (fun c => match c with
                 | HostLog (EufyLogger.Log lvl text) => Some (lvl, text)
                 | _ => None
                 end) cs.

(** The client of the attempt whose [initialize] resolved last. *)
Fixpoint lastResolved (ls : list Label) (acc : option ClientId) : option ClientId :=
  match ls with
  | [] => acc
  | InitializeResolves c :: ls' => lastResolved ls' (Some c)
  | _ :: ls' => lastResolved ls' acc
  end.

(** The descriptors [deviceAdded] registers with the host for a device. *)
Definition registered (v : Variant) (eufyDevice : EufyDevice) (now : string)
  (w : World) : list Device :=
  registrations (emitted w (snd (deviceAdded v eufyDevice now w))).

(** No [connect] call so far asked for a forced reauthentication. *)
Definition forceNeverSet (w : World) : Prop :=
  forall t o, (t, o) ∈ connectCalls (calls w) -> force o = false.

(** ** Two runs that differ in the credentials

    Two stores that hold the same settings but for the email and the
    password, and agree on which of these two are empty. *)
Definition sameButCredentials (st1 st2 : gmap string string) : Prop :=
  (forall key, key <> "email" -> key <> "password" -> st1 !! key = st2 !! key)
  /\ truthy (valuesOf st1 "email") = truthy (valuesOf st2 "email")
  /\ truthy (valuesOf st1 "password") = truthy (valuesOf st2 "password").

(** Two states that are the same but for the credentials, with the same
    texts logged so far. *)
Definition alike (w1 w2 : World) : Prop :=
  name w1 = name w2
  /\ sameButCredentials (storage w1) (storage w2)
  /\ client w1 = client w2
  /\ devices w1 = devices w2
  /\ alerts w1 = alerts w2
  /\ listeners w1 = listeners w2
  /\ created w1 = created w2
  /\ messages (calls w1) = messages (calls w2).

(** The same thing happens in both runs, but the host may store another
    email or password, empty in both runs or in neither. *)
Inductive sameInput : Label -> Label -> Prop :=
| sameInput_same (l : Label) : sameInput l l
| sameInput_email (v1 v2 : string) :
    truthy (Some v1) = truthy (Some v2) ->
    sameInput (StoreSetting "email" v1) (StoreSetting "email" v2)
| sameInput_password (v1 v2 : string) :
    truthy (Some v1) = truthy (Some v2) ->
    sameInput (StoreSetting "password" v1) (StoreSetting "password" v2).

(** ** Sample inputs *)

Definition emailOnly : gmap string string :=
  <["password" := ""]> {["email" := "user@example.com"]}.

Definition emptyEmail : gmap string string :=
  <["password" := "secret"]> {["email" := ""]}.

Definition account : gmap string string :=
  <["password" := "secret"]> {["email" := "user@example.com"]}.

Definition otherAccount : gmap string string :=
  <["password" := "hunter2"]> {["email" := "other@example.org"]}.

Definition batteryCamera : EufyDevice :=
  {| isCamera := true; getName := "Front door"; getModel := "T8210";
     getSerial := "T8210P0000000001"; getSoftwareVersion := "2.1.0";
     getStationSerial := "T8010P0000000001"; hasBattery := true;
     properties := ["motionDetection"] |}.

Definition doorSensor : EufyDevice :=
  {| isCamera := false; getName := "Back door"; getModel := "T8900";
     getSerial := "T8900P0000000001"; getSoftwareVersion := "1.0.0";
     getStationSerial := "T8010P0000000001"; hasBattery := true;
     properties := [] |}.

(** Two attempts that overlap.  The constructor's [tryLogin()] is under
    way when the password is rewritten and the [onPut] hook starts a
    second [tryLogin()]; the second attempt's client is delivered and
    connected first, the first attempt's client after it. *)
Definition overlapUntilSecondConnects : list Label :=
  [StoreSetting "password" "better"; CallTryLogin None None;
   InitializeResolves 1; InitializeClientReturns 1].

Definition firstCompletesLate : list Label :=
  [InitializeResolves 0; InitializeClientReturns 0;
   ConnectResolves 1; ConnectResolves 0].

(** A login that meets a two factor request, after which the host stores
    a new password: one value in the first run, another in the second. *)
Definition loginThenPassword (newPassword : string) : list Label :=
  [CallTryLogin None None; InitializeResolves 0; InitializeClientReturns 0;
   Emit 0 EmitTfaRequest "11/3/2026, 9:00:00 AM";
   StoreSetting "password" newPassword].

(** ** The listeners of a client *)

Definition allEvents : list EventName :=
  [DeviceAddedEv; StationAddedEv; TfaRequestEv; CaptchaRequestEv;
   ConnectEv; PushConnectEv; PushCloseEv].

(** The registrations [initializeClient] makes on client [c], in order. *)
Definition listenersOf (c : ClientId) : list (ClientId * EventName) :=
  (fun ev => (c, ev)) <$> allEvents.

(** What [tryLogin] hands to [EufySecurity.initialize] for a store. *)
Definition configOf (stored : gmap string string) : EufySecurityConfig :=
  {| username := valuesOf stored "email";
     password := valuesOf stored "password";
     country := valuesOf stored "country";
     trustedDeviceName := valuesOf stored "trustedDeviceName";
     p2pConnectionSetup := QUICKEST;
     pollingIntervalMinutes := 10;
     eventDurationSeconds := 10 |}.

(** The descriptor and the handle [deviceAdded] builds for a camera. *)
Definition descriptorOf (v : Variant) (eufyDevice : EufyDevice) : Device :=
  {| info := {| model := getModel eufyDevice; manufacturer := "Eufy";
                firmware := getSoftwareVersion eufyDevice;
                serialNumber := getSerial eufyDevice |};
     nativeId := getSerial eufyDevice;
     deviceName := getName eufyDevice;
     type := CameraType;
     interfaces := deviceInterfaces v eufyDevice |}.

Definition handleOf (held : option ClientId) (eufyDevice : EufyDevice)
  : EufySecurityCamera :=
  {| cameraNativeId := getSerial eufyDevice; cameraClient := held;
     cameraDevice := eufyDevice |}.

(** The prefix of the plugin's log lines, and the lines themselves. *)
Definition stampOf (pluginName now : string) : string :=
  "[" +:+ pluginName +:+ "] (" +:+ now +:+ ") ".

Definition infoLine (pluginName now text : string) (params : list string) : Call :=
  HostLog (EufyLogger.info (Some (stampOf pluginName now +:+ text)) params).

Definition debugLine (pluginName now text : string) : Call :=
  HostLog (EufyLogger.debug (Some (stampOf pluginName now +:+ text)) []).

(** The call the [Snapshot] camera makes when it is constructed. *)
Definition constructorCalls (v : Variant) (held : option ClientId)
  (eufyDevice : EufyDevice) : list Call :=
  match v, held with
  | Snapshot, Some c => [GetStation c (getStationSerial eufyDevice)]
  | _, _ => []
  end.

(** ** What the event loop keeps true

    Clients are numbered below [created]; a client the plugin still
    waits for has no listener; no listener is registered twice; the
    client the plugin holds, and every client [connect] was called on,
    has all its listeners; a [tryLogin] that waits at the return of
    [initializeClient] finds a client. *)
Record consistent (m : Machine) : Prop := {
  pending_created :
    forall c q, pending m !! c = Some q -> c < created (world m);
  listeners_created :
    forall c ev, (c, ev) ∈ listeners (world m) -> c < created (world m);
  listeners_NoDup : NoDup (listeners (world m));
  awaited_silent :
    forall c tf cp ev,
      pending m !! c = Some (AtInitialize tf cp) ->
      (c, ev) ∉ listeners (world m);
  client_listening :
    forall c ev, client (world m) = Some c -> (c, ev) ∈ listeners (world m);
  resumed_client :
    forall c tf cp,
      pending m !! c = Some (AtInitializeClient tf cp) ->
      is_Some (client (world m));
  connected_listening :
    forall t o ev,
      (t, o) ∈ connectCalls (calls (world m)) ->
      (t, ev) ∈ listeners (world m);
}.


(** Every descriptor registered with the host has its handle. *)
Definition handlesKept (m : Machine) : Prop :=
  forall device,
    device ∈ registrations (calls (world m)) ->
    exists camera,
      getDevice (nativeId device) (world m) = Some camera
      /\ cameraNativeId camera = nativeId device.

(** The alerts the plugin raises. *)
Definition setupAlert : string :=
  "Enter your Eufy email and password to complete setup.".

Definition knownAlert (text : string) : Prop :=
  text = setupAlert \/ text = tfaAlert
  \/ exists image, text = captchaAlert image.

(** ** The settings table

    The entries of [settingsStorage] that matter when a setting is
    written: whether the value is stored, and the arguments with which
    the [onPut] hook calls [tryLogin], given the new value. *)
Record StorageSetting := {
  noStore : bool;
  onPut : option (string -> option string * option string);
}.

Definition settingsStorage (key : string) : option StorageSetting :=
  if String.eqb key "country" then
    Some {| noStore := false; onPut := None |}
  else if String.eqb key "email" then
    Some {| noStore := false; onPut := Some (fun _ => (None, None)) |}
  else if String.eqb key "password" then
    Some {| noStore := false; onPut := Some (fun _ => (None, None)) |}
  else if String.eqb key "trustedDeviceName" then
    Some {| noStore := false; onPut := None |}
  else if String.eqb key "twoFactorCode" then
    Some {| noStore := true; onPut := Some (fun newValue => (Some newValue, None)) |}
  else if String.eqb key "captcha" then
    Some {| noStore := true; onPut := Some (fun newValue => (None, Some newValue)) |}
  else if String.eqb key "captchaId" then
    Some {| noStore := false; onPut := None |}
  else None.

(** [putSetting(key, value)], which the plugin hands to the settings
    store of the host: the store keeps the value unless the setting is
    marked [noStore], then calls the [onPut] hook of the setting. *)
Definition hostPutSetting (key value : string) : list Label :=
  match settingsStorage key with
  | Some setting =>
      (if noStore setting then [] else [StoreSetting key value])
      ++ match onPut setting with
         | Some hook => [CallTryLogin (fst (hook value)) (snd (hook value))]
         | None => []
         end
  | None => [StoreSetting key value]
  end.

(** ** Control characters in logged text *)

(** No character of the text is a control character (below U+0020). *)
Fixpoint noControl (s : string) : bool :=
  match s with
  | EmptyString => true
  | String c r => Nat.leb 32 (nat_of_ascii c) && noControl r
  end.

(** ** The [Snapshot] camera object

    The camera's [station], the properties [on] and [motionDetected],
    which the host keeps for the device, and the listeners the camera
    has on its device.  The constructor starts [initialize()], which
    awaits the station; the rest of [initialize] runs when the station
    is delivered, and never if it is not. *)
Record CameraObject := {
  station : option string;
  cameraOn : option bool;
  motionDetected : option bool;
  deviceListeners : list string;
}.

(** The camera as its constructor leaves it: no station and no
    listener; [on] and [motionDetected] hold what the host has for them. *)
Definition constructed (hostOn hostMotionDetected : option bool) : CameraObject :=
  {| station := None; cameraOn := hostOn; motionDetected := hostMotionDetected;
     deviceListeners := [] |}.

Definition detectionEvents : list string :=
  ["motion detected"; "person detected"; "pet detected"; "vehicle detected";
   "dog detected"; "radar motion detected"].

(** [setupMotionDetection]: [this.device.on(event, handle)] for the six
    events. *)
Definition setupMotionDetection (camera : CameraObject) : CameraObject :=
  {| station := station camera; cameraOn := cameraOn camera;
     motionDetected := motionDetected camera;
     deviceListeners := deviceListeners camera ++ detectionEvents |}.

(** [initialize], from the delivery of the station on: the station is
    kept, [on] is set to what the device reports, and the listeners are
    registered. *)
Definition initialize_resume (stationSerial : string) (isEnabled : bool)
  (camera : CameraObject) : CameraObject :=
  setupMotionDetection
    {| station := Some stationSerial; cameraOn := Some isEnabled;
       motionDetected := motionDetected camera;
       deviceListeners := deviceListeners camera |}.

(** [handle(device, state)]: [this.motionDetected = state]. *)
Definition handle (state : bool) (camera : CameraObject) : CameraObject :=
  {| station := station camera; cameraOn := cameraOn camera;
     motionDetected := Some state;
     deviceListeners := deviceListeners camera |}.

(** [device.emit(event, device, state)]: the listeners the camera has
    registered for [event] run. *)
Definition deviceEmit (event : string) (state : bool) (camera : CameraObject)
  : CameraObject :=
  fold_left (fun c _ => handle state c)
    (List.filter (String.eqb event) (deviceListeners camera)) camera.

(** The camera after a series of events of the device. *)
Definition deviceEvents (events : list (string * bool)) (camera : CameraObject)
  : CameraObject :=
  fold_left (fun c e => deviceEmit (fst e) (snd e) c) events camera.

Definition isDetection (e : string * bool) : bool :=
  existsb (String.eqb (fst e)) detectionEvents.

(** A step in which the host writes the store. *)
Definition isStoreSetting (l : Label) : bool :=
  match l with
  | StoreSetting _ _ => true
  | _ => false
  end.

(** A step in which a client announces a device. *)
Definition isDeviceAdded (l : Label) : bool :=
  match l with
  | Emit _ (EmitDeviceAdded _) _ => true
  | _ => false
  end.

(** A step that can write the [captchaId] setting: the host stores it,
    or a client asks for a captcha. *)
Definition writesCaptchaId (l : Label) : bool :=
  match l with
  | StoreSetting key _ => String.eqb key "captchaId"
  | Emit _ (EmitCaptchaRequest _ _) _ => true
  | _ => false
  end.

(** The attempt that asked for client [c] was called with the codes
    [twoFactorCode] and [captchaCode]: as long as it waits for its
    client or for the return of [initializeClient], these are the codes
    it is suspended with. *)
Definition attemptOf (c : ClientId) (twoFactorCode captchaCode : option string)
  (m : Machine) : Prop :=
  c < created (world m)
  /\ forall a b,
       pending m !! c = Some (AtInitialize a b)
       \/ pending m !! c = Some (AtInitializeClient a b) ->
       a = twoFactorCode /\ b = captchaCode.

(** ** Sample runs *)

Definition now0 : string := "11/3/2026, 9:00:00 AM".

Definition loginOnce : list Label :=
  [CallTryLogin None None; InitializeResolves 0; InitializeClientReturns 0].

Definition discoverBoth : list Label :=
  loginOnce
  ++ [Emit 0 (EmitDeviceAdded batteryCamera) "11/3/2026, 9:00:00 AM";
      Emit 0 (EmitDeviceAdded doorSensor) "11/3/2026, 9:00:01 AM";
      CallReleaseDevice "7" "T8210P0000000001" "11/3/2026, 9:05:00 AM"].

Definition twoAttempts : list Label :=
  CallTryLogin None None :: overlapUntilSecondConnects.

(** A captcha request, answered by the operator; while the new attempt
    waits for its client, the first client asks again, with another
    identifier. *)
Definition captchaAsked : list Label :=
  loginOnce ++ [Emit 0 (EmitCaptchaRequest "captcha-A" "data:image/png;base64,AAAA") now0].

Definition answeredAfterSecondRequest : list Label :=
  [CallTryLogin None (Some "4711");
   Emit 0 (EmitCaptchaRequest "captcha-B" "data:image/png;base64,BBBB") now0;
   InitializeResolves 1].

(** A captcha request, then a successful connect, then a captcha code. *)
Definition captchaThenConnect : list Label :=
  captchaAsked ++ [Emit 0 EmitConnect now0].

(** * Properties *)

Example getMessage_params :
  EufyLogger.getMessage (Some "Device discovered: ") ["Cam"; "T8400"]
  = "Device discovered:  [" +:+ dquote +:+ "Cam" +:+ dquote +:+ ","
    +:+ dquote +:+ "T8400" +:+ dquote +:+ "]".
Proof. reflexivity. Qed.

Example getMessage_no_params :
  EufyLogger.getMessage (Some "connect client") [] = "connect client".
Proof. reflexivity. Qed.

Example QuoteJSONString_escapes :
  QuoteJSONString ("a" +:+ dquote +:+ String (ascii_of_nat 10) "b")
  = dquote +:+ "a" +:+ backslash +:+ dquote +:+ backslash +:+ "nb" +:+ dquote.
Proof. reflexivity. Qed.

(** Runs straight-line code on a state given by its fields; lookups in
    the store and the texts are left as they are. *)
Ltac prog_eval :=
  cbv -[valuesOf truthy app String.append lookup insert delete
        EufyLogger.getMessage tfaAlert captchaAlert emitted messages
        connectCalls initializeCalls registrations
        sameButCredentials
        deviceInterfaces hasProperty Nat.eqb isCamera getName getModel
        getSerial getSoftwareVersion getStationSerial hasBattery properties
        stationName stationModel] in *.

(** Case analysis on a test the code makes, wherever it is made again. *)
Ltac prog_case t :=
  let E := fresh "E" in
  destruct t eqn:E; prog_eval; rewrite ?E; prog_eval.

Lemma emitted_app (w w' : World) (cs : list Call) :
  calls w' = calls w ++ cs -> emitted w w' = cs.
Proof. intros E. unfold emitted. rewrite E. apply drop_app_length. Qed.

(** With no email stored, or an empty one, [tryLogin] clears the alerts,
    raises its alert and throws; no client is asked for. *)
Lemma tryLogin_email_missing (twoFactorCode captchaCode : option string) (w : World) :
  truthy (values w "email") = false ->
  fst (tryLogin twoFactorCode captchaCode w)
    = Threw "Eufy email and password are missing."
  /\ emitted w (snd (tryLogin twoFactorCode captchaCode w))
     = [HostLog EufyLogger.clearAlerts; GetSetting "email";
        HostLog (EufyLogger.alert
          (Some "Enter your Eufy email and password to complete setup.") [])]
  /\ alerts (snd (tryLogin twoFactorCode captchaCode w))
     = ["Enter your Eufy email and password to complete setup."]
  /\ client (snd (tryLogin twoFactorCode captchaCode w)) = client w
  /\ created (snd (tryLogin twoFactorCode captchaCode w)) = created w.
Proof.
  destruct w as [n st cl dv al ls cr cs]. intros E.
  prog_eval. rewrite E.
  repeat split.
  apply emitted_app. cbn [calls]. rewrite <- !app_assoc. reflexivity.
Qed.

(** Reads off the calls made between two explicit states. *)
Ltac emitted_eval :=
  erewrite emitted_app;
  [| cbn [calls]; rewrite <- ?app_assoc; cbn [app]; reflexivity ].

(** ** The credential check *)

(** C1, at its failing input: with an email stored and the password
    setting empty, [tryLogin] raises no alert and does not throw; it asks
    for a client with the empty password and calls [connect] on it.  The
    check reads the email twice and the password never. *)
Theorem C1_empty_password_reaches_connect :
  let w := world (fresh "eufy" emailOnly) in
  truthy (values w "password") = false
  /\ fst (tryLogin None None w) = AwaitsConnect 0
  /\ alerts (snd (tryLogin None None w)) = []
  /\ initializeCalls (emitted w (snd (tryLogin None None w)))
     = [({| username := Some "user@example.com"; password := None;
            country := Some "US"; trustedDeviceName := None;
            p2pConnectionSetup := QUICKEST; pollingIntervalMinutes := 10;
            eventDurationSeconds := 10 |}, 0)]
  /\ connectCalls (emitted w (snd (tryLogin None None w)))
     = [(0, {| verifyCode := None; captcha := None; force := false |})].
Proof. vm_compute. repeat split. Qed.

(** C8: the first call of every [tryLogin] is [clearAlerts], which
    empties the alert log; the read of the email setting, with which the
    credential check starts, comes second, and every other call after. *)
Theorem C8_tryLogin_clears_alerts_first
  (twoFactorCode captchaCode : option string) (w : World) :
  logEffect EufyLogger.clearAlerts (alerts w) = []
  /\ exists rest,
       emitted w (snd (tryLogin twoFactorCode captchaCode w))
       = HostLog EufyLogger.clearAlerts :: GetSetting "email" :: rest.
Proof.
  split; [reflexivity|].
  destruct w as [n st cl dv al ls cr cs]. prog_eval.
  prog_case (truthy (valuesOf st "email"));
    [prog_case (truthy captchaCode)|];
    eexists; apply emitted_app; cbn [calls];
    rewrite <- !app_assoc; cbn [app]; reflexivity.
Qed.

(** ** Device discovery *)

(** What [deviceAdded] registers for a device, camera or not: one
    descriptor, with the interfaces of the variant. *)
Lemma registered_camera (v : Variant) (eufyDevice : EufyDevice) (now : string)
  (w : World) :
  registered v eufyDevice now w
  = [ {| info := {| model := getModel eufyDevice; manufacturer := "Eufy";
                    firmware := getSoftwareVersion eufyDevice;
                    serialNumber := getSerial eufyDevice |};
         nativeId := getSerial eufyDevice;
         deviceName := getName eufyDevice;
         type := CameraType;
         interfaces := deviceInterfaces v eufyDevice |} ].
Proof.
  destruct w as [n st cl dv al ls cr cs].
  unfold registered. prog_eval.
  destruct v, cl; prog_eval; emitted_eval; reflexivity.
Qed.

(** C5, at its failing input: a device whose [isCamera()] answers false
    is not skipped.  [deviceAdded] tests the method [isCamera] itself,
    not its answer, so it logs the device as discovered, keeps a handle
    under its serial number and registers it with the host. *)
Theorem C5_non_camera_is_registered :
  let w := world (fresh "eufy" account) in
  let w' := snd (deviceAdded Rtsp doorSensor "11/3/2026, 9:00:00 AM" w) in
  isCamera doorSensor = false
  /\ messages (emitted w w')
     = [(LevelI,
         EufyLogger.getMessage
           (Some "[eufy] (11/3/2026, 9:00:00 AM) Device discovered: ")
           ["Back door"; "T8900"])]
  /\ registered Rtsp doorSensor "11/3/2026, 9:00:00 AM" w
     = [ {| info := {| model := "T8900"; manufacturer := "Eufy";
                       firmware := "1.0.0";
                       serialNumber := "T8900P0000000001" |};
            nativeId := "T8900P0000000001";
            deviceName := "Back door";
            type := CameraType;
            interfaces := [VideoCamera; Battery] |} ]
  /\ getDevice "T8900P0000000001" w'
     = Some {| cameraNativeId := "T8900P0000000001"; cameraClient := None;
               cameraDevice := doorSensor |}.
Proof. vm_compute. repeat split. Qed.

(** C2, refuted on the [Snapshot] variant: a camera that reports a
    battery and motion detection is registered without the battery
    interface. *)
Lemma C2_snapshot_omits_battery :
  isCamera batteryCamera = true
  /\ hasBattery batteryCamera = true
  /\ exists device,
       registered Snapshot batteryCamera "11/3/2026, 9:00:00 AM"
         (world (fresh "eufy" account)) = [device]
       /\ interfaces device = [VideoCamera; Camera; OnOff]
       /\ Battery ∉ interfaces device.
Proof.
  split; [reflexivity|]. split; [reflexivity|].
  eexists. split; [apply registered_camera|].
  split; [reflexivity|].
  cbn [interfaces deviceInterfaces]. rewrite !elem_of_cons, !elem_of_nil.
  intros [H|[H|[H|[]]]]; discriminate H.
Qed.

(** C2 as amended: every camera is registered with one descriptor, which
    declares video streaming.  In the [Rtsp] variant it declares the
    battery exactly when the device reports one and motion sensing
    exactly when the device has the [motionDetection] property; in the
    [Snapshot] variant the interfaces are [VideoCamera], [Camera] and
    [OnOff], whatever the device reports, so it does not declare the
    battery. *)
Theorem C2_declared_interfaces (eufyDevice : EufyDevice) (now : string) (w : World) :
  isCamera eufyDevice = true ->
  (exists device,
     registered Rtsp eufyDevice now w = [device]
     /\ VideoCamera ∈ interfaces device
     /\ (Battery ∈ interfaces device <-> hasBattery eufyDevice = true)
     /\ (MotionSensor ∈ interfaces device
         <-> hasProperty eufyDevice "motionDetection" = true))
  /\ (exists device,
        registered Snapshot eufyDevice now w = [device]
        /\ interfaces device = [VideoCamera; Camera; OnOff]
        /\ VideoCamera ∈ interfaces device
        /\ Battery ∉ interfaces device).
Proof.
  intros _. split; eexists; (split; [apply registered_camera|]);
    cbn [interfaces deviceInterfaces].
  - destruct (hasBattery eufyDevice), (hasProperty eufyDevice "motionDetection");
      cbn [app]; rewrite ?elem_of_cons, ?elem_of_nil;
      intuition congruence.
  - split; [reflexivity|].
    rewrite !elem_of_cons, !elem_of_nil. intuition congruence.
Qed.

Lemma C2_declared_interfaces_witness :
  isCamera batteryCamera = true
  /\ exists device,
       registered Rtsp batteryCamera "11/3/2026, 9:00:00 AM"
         (world (fresh "eufy" account)) = [device]
       /\ VideoCamera ∈ interfaces device
       /\ (Battery ∈ interfaces device <-> hasBattery batteryCamera = true)
       /\ (MotionSensor ∈ interfaces device
           <-> hasProperty batteryCamera "motionDetection" = true).
Proof.
  split; [reflexivity|].
  apply (C2_declared_interfaces batteryCamera "11/3/2026, 9:00:00 AM"
           (world (fresh "eufy" account))).
  reflexivity.
Defined.

(** C10: [releaseDevice] makes one call, an info line for the host's
    log, and leaves the device map as it was, so [getDevice] answers as
    before for every native id. *)
Theorem C10_releaseDevice_keeps_devices
  (id nativeId now : string) (w : World) (queried : string) :
  getDevice queried (snd (releaseDevice id nativeId now w)) = getDevice queried w
  /\ devices (snd (releaseDevice id nativeId now w)) = devices w
  /\ exists text,
       emitted w (snd (releaseDevice id nativeId now w))
       = [HostLog (EufyLogger.Log LevelI text)].
Proof.
  destruct w as [n st cl dv al ls cr cs]. unfold getDevice. prog_eval.
  repeat split. eexists. emitted_eval. reflexivity.
Qed.

(** ** Texts *)

Lemma getMessage_nil (s : string) : EufyLogger.getMessage (Some s) [] = s.
Proof. destruct s; reflexivity. Qed.

Lemma valuesOf_insert (stored : gmap string string) (key value : string) :
  valuesOf (<[key := value]> stored) key
  = if String.eqb value "" then defaultValue key else Some value.
Proof. unfold valuesOf. now rewrite lookup_insert_eq. Qed.

Lemma valuesOf_insert_ne (stored : gmap string string) (key key' value : string) :
  key <> key' ->
  valuesOf (<[key := value]> stored) key' = valuesOf stored key'.
Proof. intros N. unfold valuesOf. now rewrite lookup_insert_ne. Qed.

(** ** The connect call of an attempt *)

(** What an uninterrupted [tryLogin] hands to [connect]: nothing when the
    email is missing; otherwise one call, on the client just created. *)
Lemma tryLogin_connectCalls (twoFactorCode captchaCode : option string) (w : World) :
  connectCalls (emitted w (snd (tryLogin twoFactorCode captchaCode w)))
  = if truthy (values w "email")
    then [(created w,
           {| verifyCode := twoFactorCode;
              captcha := if truthy captchaCode
                         then Some {| captchaCode := default "" captchaCode;
                                      captchaId := values w "captchaId" |}
                         else None;
              force := false |})]
    else [].
Proof.
  destruct w as [n st cl dv al ls cr cs]. prog_eval.
  prog_case (truthy (valuesOf st "email"));
    [prog_case (truthy captchaCode)|]; emitted_eval; reflexivity.
Qed.

(** ** Emitted events *)

(** What every run of a listener keeps, the whole emission keeps. *)
Lemma emit_invariant (v : Variant) (c : ClientId) (ev : ClientEvent) (now : string)
  (P : World -> Prop) (w : World) :
  P w ->
  (forall w0, P w0 -> P (snd (handler v ev now w0))) ->
  P (emit v c ev now w).
Proof.
  intros H K. unfold emit.
  generalize (List.filter (listens c (eventName ev)) (listeners w)).
  intros l. revert w H. induction l as [|x l IH]; intros w H; cbn [fold_left].
  - exact H.
  - apply IH, K, H.
Qed.

(** ** Runs of the event loop *)

Ltac calls_eval :=
  unfold connectCalls, messages, initializeCalls, registrations;
  rewrite ?omap_app; cbn [omap list_omap]; rewrite ?app_nil_r.

Lemma tryLogin_start_client (w : World) :
  client (snd (tryLogin_start w)) = client w.
Proof.
  destruct w as [n st cl dv al ls cr cs]. prog_eval.
  prog_case (truthy (valuesOf st "email")); reflexivity.
Qed.

Lemma tryLogin_resume_client (twoFactorCode captchaCode : option string) (w : World) :
  client (snd (tryLogin_resume twoFactorCode captchaCode w)) = client w.
Proof.
  destruct w as [n st [c|] dv al ls cr cs]; prog_eval;
    prog_case (truthy captchaCode); reflexivity.
Qed.

Lemma initializeClient_resume_client (c : ClientId) (w : World) :
  client (snd (initializeClient_resume c w)) = Some c.
Proof. destruct w as [n st cl dv al ls cr cs]. reflexivity. Qed.

Lemma handler_client (v : Variant) (ev : ClientEvent) (now : string) (w : World) :
  client (snd (handler v ev now w)) = client w.
Proof.
  destruct w as [n st cl dv al ls cr cs].
  destruct ev as [d| | | | | |]; try reflexivity.
  cbn [handler]. prog_eval.
  destruct v, cl; reflexivity.
Qed.

(** The client reference after a step: the one just delivered, or the
    one held before. *)
Lemma step_client (v : Variant) (l : Label) (m m' : Machine) :
  step v l m = Some m' ->
  client (world m')
  = match l with
    | InitializeResolves c => Some c
    | _ => client (world m)
    end.
Proof.
  destruct l as [tf cp|k x|c|c|c|c ev now|i nid now]; cbn [step]; intros H.
  - destruct (tryLogin_start (world m)) as [r w'] eqn:E.
    injection H as <-. cbn [world].
    change w' with (snd (r, w')). rewrite <- E. apply tryLogin_start_client.
  - injection H as <-. reflexivity.
  - destruct (pending m !! c) as [[tf cp|tf cp|t]|]; try discriminate.
    injection H as <-. apply initializeClient_resume_client.
  - destruct (pending m !! c) as [[tf cp|tf cp|t]|]; try discriminate.
    destruct (tryLogin_resume tf cp (world m)) as [r w'] eqn:E.
    injection H as <-. cbn [world].
    change w' with (snd (r, w')). rewrite <- E. apply tryLogin_resume_client.
  - destruct (pending m !! c) as [[tf cp|tf cp|t]|]; try discriminate.
    injection H as <-. reflexivity.
  - injection H as <-. cbn [world].
    apply (emit_invariant v c ev now (fun w0 => client w0 = client (world m)));
      [reflexivity|].
    intros w0 E. now rewrite handler_client.
  - injection H as <-. cbn [world].
    destruct (world m) as [n st cl dv al ls cr cs]. reflexivity.
Qed.

(** C6, refuted: the second attempt is issued while the first awaits its
    client, and sets the client reference to its own client 1; the first
    attempt's client 0 is delivered later, and the reference ends on
    client 0, which was configured with the password the second attempt
    replaced.  Both clients were connected. *)
Lemma C6_late_first_attempt_takes_client :
  exists m1 m2,
    exec Rtsp overlapUntilSecondConnects (boot Rtsp "eufy" account) = Some m1
    /\ client (world m1) = Some 1
    /\ exec Rtsp firstCompletesLate m1 = Some m2
    /\ pending m2 = ∅
    /\ client (world m2) = Some 0
    /\ fst <$> connectCalls (calls (world m2)) = [1; 0]
    /\ (fun g => (password (fst g), snd g)) <$> initializeCalls (calls (world m2))
       = [(Some "secret", 0); (Some "better", 1)].
Proof.
  eexists. eexists.
  split; [vm_compute; reflexivity|].
  split; [reflexivity|].
  split; [vm_compute; reflexivity|].
  repeat split.
Qed.

(** C6 as amended: the plugin holds one client reference, and after any
    run it is the client of the attempt whose [initialize] call resolved
    last (the reference held at the start if none resolved).  An attempt
    replaces the reference when its [initialize] resolves, whatever the
    order in which the attempts were issued. *)
Theorem C6_client_is_last_resolved
  (v : Variant) (ls : list Label) (m m' : Machine) :
  exec v ls m = Some m' ->
  client (world m') = lastResolved ls (client (world m)).
Proof.
  revert m. induction ls as [|l ls IH]; intros m H; cbn [exec] in H.
  - injection H as <-. reflexivity.
  - destruct (step v l m) as [m1|] eqn:S; [|discriminate].
    rewrite (IH m1 H). apply step_client in S.
    destruct l; cbn [lastResolved]; now rewrite S.
Qed.

Lemma C6_client_is_last_resolved_witness :
  exists m1,
    exec Rtsp overlapUntilSecondConnects (boot Rtsp "eufy" account) = Some m1
    /\ client (world m1) = Some 1.
Proof.
  eexists. split; [vm_compute; reflexivity|].
  match goal with
  | |- client (world ?m) = _ =>
      exact (C6_client_is_last_resolved Rtsp overlapUntilSecondConnects
               (boot Rtsp "eufy" account) m eq_refl)
  end.
Defined.

(** *** The calls to [connect] *)

Lemma tryLogin_start_connectCalls (w : World) :
  connectCalls (calls (snd (tryLogin_start w))) = connectCalls (calls w).
Proof.
  destruct w as [n st cl dv al ls cr cs]. prog_eval.
  prog_case (truthy (valuesOf st "email")); calls_eval; reflexivity.
Qed.

Lemma initializeClient_resume_connectCalls (c : ClientId) (w : World) :
  connectCalls (calls (snd (initializeClient_resume c w))) = connectCalls (calls w).
Proof.
  destruct w as [n st cl dv al ls cr cs]. prog_eval. calls_eval. reflexivity.
Qed.

(** The resumed [tryLogin] makes one [connect] call, on the client the
    plugin holds at that moment. *)
Lemma tryLogin_resume_connectCalls
  (twoFactorCode captchaCode : option string) (w : World) :
  connectCalls (calls (snd (tryLogin_resume twoFactorCode captchaCode w)))
  = connectCalls (calls w)
    ++ match client w with
       | Some c =>
           [(c, {| verifyCode := twoFactorCode;
                   captcha := if truthy captchaCode
                              then Some {| captchaCode := default "" captchaCode;
                                           captchaId := values w "captchaId" |}
                              else None;
                   force := false |})]
       | None => []
       end.
Proof.
  destruct w as [n st [c|] dv al ls cr cs]; prog_eval;
    prog_case (truthy captchaCode); calls_eval; reflexivity.
Qed.

Lemma handler_connectCalls (v : Variant) (ev : ClientEvent) (now : string) (w : World) :
  connectCalls (calls (snd (handler v ev now w))) = connectCalls (calls w).
Proof.
  destruct w as [n st cl dv al ls cr cs].
  destruct ev as [d| | | | | |]; cbn [handler]; prog_eval;
    try (calls_eval; reflexivity).
  destruct v, cl; prog_eval; calls_eval; reflexivity.
Qed.

Lemma releaseDevice_connectCalls (id nativeId now : string) (w : World) :
  connectCalls (calls (snd (releaseDevice id nativeId now w))) = connectCalls (calls w).
Proof.
  destruct w as [n st cl dv al ls cr cs]. prog_eval. calls_eval. reflexivity.
Qed.

Lemma forceNeverSet_same (w w' : World) :
  connectCalls (calls w') = connectCalls (calls w) ->
  forceNeverSet w -> forceNeverSet w'.
Proof. unfold forceNeverSet. intros E H t o. rewrite E. apply H. Qed.

Lemma step_forceNeverSet (v : Variant) (l : Label) (m m' : Machine) :
  step v l m = Some m' -> forceNeverSet (world m) -> forceNeverSet (world m').
Proof.
  destruct l as [tf cp|k x|c|c|c|c ev now|i nid now]; cbn [step]; intros H F.
  - destruct (tryLogin_start (world m)) as [r w'] eqn:E.
    injection H as <-. cbn [world].
    apply (forceNeverSet_same (world m)); [|exact F].
    change w' with (snd (r, w')). rewrite <- E. apply tryLogin_start_connectCalls.
  - injection H as <-. exact F.
  - destruct (pending m !! c) as [[tf cp|tf cp|t]|]; try discriminate.
    injection H as <-. cbn [world].
    apply (forceNeverSet_same (world m)); [|exact F].
    apply initializeClient_resume_connectCalls.
  - destruct (pending m !! c) as [[tf cp|tf cp|t]|]; try discriminate.
    destruct (tryLogin_resume tf cp (world m)) as [r w'] eqn:E.
    injection H as <-. cbn [world].
    assert (C := tryLogin_resume_connectCalls tf cp (world m)).
    rewrite E in C. cbn [snd] in C.
    intros t o. rewrite C, elem_of_app. intros [I|I]; [exact (F t o I)|].
    destruct (client (world m)); [|now apply elem_of_nil in I].
    apply list_elem_of_singleton in I. injection I as -> ->. reflexivity.
  - destruct (pending m !! c) as [[tf cp|tf cp|t]|]; try discriminate.
    injection H as <-. exact F.
  - injection H as <-. cbn [world].
    apply (emit_invariant v c ev now forceNeverSet); [exact F|].
    intros w0 F0. apply (forceNeverSet_same w0); [|exact F0].
    apply handler_connectCalls.
  - injection H as <-. cbn [world].
    apply (forceNeverSet_same (world m)); [|exact F].
    apply (releaseDevice_connectCalls i).
Qed.

Lemma exec_forceNeverSet (v : Variant) (ls : list Label) (m m' : Machine) :
  exec v ls m = Some m' -> forceNeverSet (world m) -> forceNeverSet (world m').
Proof.
  revert m. induction ls as [|l ls IH]; intros m H F; cbn [exec] in H.
  - injection H as <-. exact F.
  - destruct (step v l m) as [m1|] eqn:S; [|discriminate].
    apply (IH m1 H). exact (step_forceNeverSet v l m m1 S F).
Qed.

(** C7: a [tryLogin] that passes the email check makes one [connect]
    call, and one that throws makes none; the call carries the two factor
    code it was given as [verifyCode], and [force] false.  In every state
    the plugin reaches from its construction, no [connect] call has asked
    for a forced reauthentication. *)
Theorem C7_verifyCode_attached_force_false
  (twoFactorCode captchaCode : option string) (w : World)
  (v : Variant) (ls : list Label) (pluginName : string)
  (stored : gmap string string) (m : Machine) :
  (exists o,
     verifyCode o = twoFactorCode /\ force o = false
     /\ connectCalls (emitted w (snd (tryLogin twoFactorCode captchaCode w)))
        = if truthy (values w "email") then [(created w, o)] else [])
  /\ (exec v ls (fresh pluginName stored) = Some m -> forceNeverSet (world m)).
Proof.
  split.
  - eexists. split; [|split; [|apply tryLogin_connectCalls]]; reflexivity.
  - intros H. apply (exec_forceNeverSet v ls _ m H).
    intros t o I. now apply elem_of_nil in I.
Qed.

Lemma C7_verifyCode_attached_force_false_witness :
  exists m,
    exec Rtsp (CallTryLogin None None :: overlapUntilSecondConnects)
      (fresh "eufy" account) = Some m
    /\ forceNeverSet (world m)
    /\ exists o,
         verifyCode o = Some "123456" /\ force o = false
         /\ connectCalls (emitted (world m)
              (snd (tryLogin (Some "123456") None (world m))))
            = [(2, o)].
Proof.
  eexists. split; [vm_compute; reflexivity|].
  match goal with
  | |- forceNeverSet (world ?m) /\ _ =>
      destruct (C7_verifyCode_attached_force_false (Some "123456") None (world m)
                  Rtsp (CallTryLogin None None :: overlapUntilSecondConnects)
                  "eufy" account m) as [A B]
  end.
  split; [exact (B eq_refl) | exact A].
Defined.

(** ** Texts and credentials *)

(** C9, refuted: two stores that differ in the email only; with the
    email empty [tryLogin] raises its alert, with an email stored it logs
    the debug line of the connect call. *)
Lemma C9_texts_differ_with_empty_email :
  (forall key, key <> "email" -> emptyEmail !! key = account !! key)
  /\ messages (calls (snd (tryLogin None None (world (fresh "eufy" emptyEmail)))))
     = [(LevelA, "Enter your Eufy email and password to complete setup.")]
  /\ messages (calls (snd (tryLogin None None (world (fresh "eufy" account)))))
     = [(LevelD, "connect client")].
Proof.
  split; [|split; vm_compute; reflexivity].
  intros key N. unfold emptyEmail, account.
  destruct (decide (key = "password")) as [->|P].
  - now rewrite !lookup_insert_eq.
  - rewrite !lookup_insert_ne by congruence.
    now rewrite !lookup_singleton_ne by congruence.
Qed.

Lemma sameButCredentials_insert (st1 st2 : gmap string string) (key value : string) :
  sameButCredentials st1 st2 ->
  sameButCredentials (<[key := value]> st1) (<[key := value]> st2).
Proof.
  intros (H & E & P). unfold sameButCredentials.
  split; [|split].
  - intros k N1 N2. destruct (decide (key = k)) as [->|N].
    + now rewrite !lookup_insert_eq.
    + rewrite !lookup_insert_ne by exact N. now apply H.
  - destruct (decide (key = "email")) as [->|N].
    + now rewrite !valuesOf_insert.
    + now rewrite !valuesOf_insert_ne by exact N.
  - destruct (decide (key = "password")) as [->|N].
    + now rewrite !valuesOf_insert.
    + now rewrite !valuesOf_insert_ne by exact N.
Qed.

Lemma truthy_written (key v1 v2 : string) :
  defaultValue key = None ->
  truthy (Some v1) = truthy (Some v2) ->
  truthy (if String.eqb v1 "" then defaultValue key else Some v1)
  = truthy (if String.eqb v2 "" then defaultValue key else Some v2).
Proof.
  intros D T. rewrite D. cbn [truthy] in *.
  destruct (String.eqb v1 "") eqn:E1, (String.eqb v2 "") eqn:E2;
    try discriminate T; cbn [truthy]; rewrite ?E1, ?E2; reflexivity.
Qed.

Lemma sameButCredentials_email (st1 st2 : gmap string string) (v1 v2 : string) :
  truthy (Some v1) = truthy (Some v2) ->
  sameButCredentials st1 st2 ->
  sameButCredentials (<["email" := v1]> st1) (<["email" := v2]> st2).
Proof.
  intros T (H & E & P). unfold sameButCredentials.
  split; [|split].
  - intros k N1 N2. rewrite !lookup_insert_ne by congruence. now apply H.
  - rewrite !valuesOf_insert. now apply truthy_written.
  - now rewrite !valuesOf_insert_ne by discriminate.
Qed.

Lemma sameButCredentials_password (st1 st2 : gmap string string) (v1 v2 : string) :
  truthy (Some v1) = truthy (Some v2) ->
  sameButCredentials st1 st2 ->
  sameButCredentials (<["password" := v1]> st1) (<["password" := v2]> st2).
Proof.
  intros T (H & E & P). unfold sameButCredentials.
  split; [|split].
  - intros k N1 N2. rewrite !lookup_insert_ne by congruence. now apply H.
  - now rewrite !valuesOf_insert_ne by discriminate.
  - rewrite !valuesOf_insert. now apply truthy_written.
Qed.

Ltac alike_open :=
  match goal with
  | |- alike ?w1 ?w2 -> _ =>
      let S := fresh "S" in
      let M := fresh "M" in
      destruct w1 as [n1 st1 cl1 dv1 al1 ls1 cr1 cs1];
      destruct w2 as [n2 st2 cl2 dv2 al2 ls2 cr2 cs2];
      unfold alike;
      cbn [name storage client devices alerts listeners created calls];
      intros (-> & S & -> & -> & -> & -> & -> & M)
  end.

Ltac alike_close :=
  unfold alike;
  cbn [name storage client devices alerts listeners created calls];
  split; [reflexivity|];
  split; [first [assumption | apply sameButCredentials_insert; assumption]|];
  repeat (split; [reflexivity|]);
  unfold messages in *; rewrite ?omap_app; cbn [omap list_omap];
  match goal with
  | M : omap _ _ = omap _ _ |- _ => rewrite ?M
  end; reflexivity.

Lemma tryLogin_start_alike (w1 w2 : World) :
  alike w1 w2 ->
  fst (tryLogin_start w1) = fst (tryLogin_start w2)
  /\ alike (snd (tryLogin_start w1)) (snd (tryLogin_start w2)).
Proof.
  alike_open. pose proof S as (_ & T & _). prog_eval.
  destruct (truthy (valuesOf st1 "email")) eqn:E1; symmetry in T;
    rewrite ?T; prog_eval; rewrite ?E1, ?T; prog_eval;
    (split; [reflexivity | alike_close]).
Qed.

Lemma initializeClient_resume_alike (c : ClientId) (w1 w2 : World) :
  alike w1 w2 ->
  alike (snd (initializeClient_resume c w1)) (snd (initializeClient_resume c w2)).
Proof. alike_open. prog_eval. alike_close. Qed.

Lemma tryLogin_resume_alike (twoFactorCode captchaCode : option string)
  (w1 w2 : World) :
  alike w1 w2 ->
  fst (tryLogin_resume twoFactorCode captchaCode w1)
  = fst (tryLogin_resume twoFactorCode captchaCode w2)
  /\ alike (snd (tryLogin_resume twoFactorCode captchaCode w1))
           (snd (tryLogin_resume twoFactorCode captchaCode w2)).
Proof.
  alike_open. prog_eval.
  destruct (truthy captchaCode), cl2; prog_eval;
    (split; [reflexivity | alike_close]).
Qed.

Lemma handler_alike (v : Variant) (ev : ClientEvent) (now : string) (w1 w2 : World) :
  alike w1 w2 ->
  alike (snd (handler v ev now w1)) (snd (handler v ev now w2)).
Proof.
  alike_open.
  destruct ev as [d| | | | | |]; cbn [handler]; prog_eval; try alike_close.
  destruct v, cl2; prog_eval; alike_close.
Qed.

Lemma releaseDevice_alike (id nativeId now : string) (w1 w2 : World) :
  alike w1 w2 ->
  alike (snd (releaseDevice id nativeId now w1))
        (snd (releaseDevice id nativeId now w2)).
Proof. alike_open. prog_eval. alike_close. Qed.

Lemma emit_alike (v : Variant) (c : ClientId) (ev : ClientEvent) (now : string)
  (w1 w2 : World) :
  alike w1 w2 -> alike (emit v c ev now w1) (emit v c ev now w2).
Proof.
  intros A. unfold emit.
  assert (L : listeners w1 = listeners w2) by apply A.
  rewrite <- L.
  generalize (List.filter (listens c (eventName ev)) (listeners w1)).
  intros l. clear L. revert w1 w2 A.
  induction l as [|x l IH]; intros w1 w2 A; cbn [fold_left].
  - exact A.
  - apply IH, handler_alike, A.
Qed.

Lemma store_alike (key v1 v2 : string) (w1 w2 : World) :
  (forall st1 st2, sameButCredentials st1 st2 ->
     sameButCredentials (<[key := v1]> st1) (<[key := v2]> st2)) ->
  alike w1 w2 -> alike (store key v1 w1) (store key v2 w2).
Proof.
  intros K. alike_open. unfold store, alike.
  cbn [name storage client devices alerts listeners created calls].
  split; [reflexivity|]. split; [apply K, S|].
  repeat (split; [reflexivity|]). exact M.
Qed.

(** One step of the two runs: the second run can make the step, and the
    two states stay alike. *)
Lemma step_alike (v : Variant) (l1 l2 : Label) (m1 m2 m1' : Machine) :
  sameInput l1 l2 ->
  alike (world m1) (world m2) -> pending m1 = pending m2 ->
  step v l1 m1 = Some m1' ->
  exists m2',
    step v l2 m2 = Some m2'
    /\ alike (world m1') (world m2') /\ pending m1' = pending m2'.
Proof.
  intros I A P H. destruct I as [l|v1 v2 T|v1 v2 T].
  - destruct l as [tf cp|k x|c|c|c|c ev now|i nid now]; cbn [step] in *.
    + destruct (tryLogin_start_alike _ _ A) as [R A'].
      destruct (tryLogin_start (world m1)) as [r1 w1'].
      destruct (tryLogin_start (world m2)) as [r2 w2'].
      cbn [fst snd] in *. subst r2. injection H as <-.
      eexists. split; [reflexivity|]. cbn [world pending].
      split; [exact A'|]. now rewrite P.
    + injection H as <-. eexists. split; [reflexivity|]. cbn [world pending].
      split; [|exact P].
      apply store_alike; [|exact A].
      intros st1 st2. apply sameButCredentials_insert.
    + rewrite <- P.
      destruct (pending m1 !! c) as [[tf cp|tf cp|t]|]; try discriminate.
      injection H as <-. eexists. split; [reflexivity|]. cbn [world pending].
      split; [now apply initializeClient_resume_alike|]. now rewrite P.
    + rewrite <- P.
      destruct (pending m1 !! c) as [[tf cp|tf cp|t]|]; try discriminate.
      destruct (tryLogin_resume_alike tf cp _ _ A) as [R A'].
      destruct (tryLogin_resume tf cp (world m1)) as [r1 w1'].
      destruct (tryLogin_resume tf cp (world m2)) as [r2 w2'].
      cbn [fst snd] in *. subst r2. injection H as <-.
      eexists. split; [reflexivity|]. cbn [world pending].
      split; [exact A'|]. now rewrite P.
    + rewrite <- P.
      destruct (pending m1 !! c) as [[tf cp|tf cp|t]|]; try discriminate.
      injection H as <-. eexists. split; [reflexivity|]. cbn [world pending].
      split; [exact A|]. now rewrite P.
    + injection H as <-. eexists. split; [reflexivity|]. cbn [world pending].
      split; [now apply emit_alike | exact P].
    + injection H as <-. eexists. split; [reflexivity|]. cbn [world pending].
      split; [now apply releaseDevice_alike | exact P].
  - cbn [step] in *. injection H as <-.
    eexists. split; [reflexivity|]. cbn [world pending]. split; [|exact P].
    apply store_alike; [|exact A].
    intros st1 st2. now apply sameButCredentials_email.
  - cbn [step] in *. injection H as <-.
    eexists. split; [reflexivity|]. cbn [world pending]. split; [|exact P].
    apply store_alike; [|exact A].
    intros st1 st2. now apply sameButCredentials_password.
Qed.

Lemma exec_alike (v : Variant) (ls1 ls2 : list Label) (m1 m2 m1' : Machine) :
  Forall2 sameInput ls1 ls2 ->
  alike (world m1) (world m2) -> pending m1 = pending m2 ->
  exec v ls1 m1 = Some m1' ->
  exists m2',
    exec v ls2 m2 = Some m2'
    /\ alike (world m1') (world m2') /\ pending m1' = pending m2'.
Proof.
  intros F. revert m1 m2.
  induction F as [|l1 l2 ls1 ls2 I F IH]; intros m1 m2 A P H; cbn [exec] in *.
  - injection H as <-. exists m2. auto.
  - destruct (step v l1 m1) as [n1|] eqn:S1; [|discriminate].
    destruct (step_alike v l1 l2 m1 m2 n1 I A P S1) as (n2 & S2 & A' & P').
    rewrite S2. exact (IH n1 n2 A' P' H).
Qed.

Lemma fresh_alike (pluginName : string) (stored1 stored2 : gmap string string) :
  sameButCredentials stored1 stored2 ->
  alike (world (fresh pluginName stored1)) (world (fresh pluginName stored2)).
Proof.
  intros S. unfold alike, fresh.
  cbn [world name storage client devices alerts listeners created calls].
  split; [reflexivity|]. split; [exact S|]. repeat split.
Qed.

(** C9 as amended: take two runs of the plugin, constructed over stores
    that differ at most in the email and the password; in both runs the
    same things happen, but the host may store different emails and
    passwords.  If at every moment the email is empty in both runs or in
    neither, and so is the password, then whenever the first run is
    possible so is the second, and the two runs hand the same texts, at
    the same levels, to the host's logger and leave the same alerts. *)
Theorem C9_texts_do_not_depend_on_credentials
  (v : Variant) (pluginName : string) (stored1 stored2 : gmap string string)
  (ls1 ls2 : list Label) (m1 : Machine) :
  sameButCredentials stored1 stored2 ->
  Forall2 sameInput ls1 ls2 ->
  exec v ls1 (fresh pluginName stored1) = Some m1 ->
  exists m2,
    exec v ls2 (fresh pluginName stored2) = Some m2
    /\ messages (calls (world m1)) = messages (calls (world m2))
    /\ alerts (world m1) = alerts (world m2).
Proof.
  intros S F H.
  destruct (exec_alike v ls1 ls2 _ (fresh pluginName stored2) m1 F
              (fresh_alike pluginName stored1 stored2 S) eq_refl H)
    as (m2 & H2 & A & _).
  exists m2. split; [exact H2|]. split; apply A.
Qed.

Lemma C9_texts_do_not_depend_on_credentials_witness :
  exists m1 m2,
    exec Rtsp (loginThenPassword "first") (fresh "eufy" account) = Some m1
    /\ exec Rtsp (loginThenPassword "second") (fresh "eufy" otherAccount) = Some m2
    /\ messages (calls (world m1)) = messages (calls (world m2))
    /\ alerts (world m1) = alerts (world m2).
Proof.
  assert (S : sameButCredentials account otherAccount).
  { split; [|split; reflexivity].
    intros key N1 N2. unfold account, otherAccount.
    rewrite !lookup_insert_ne by congruence.
    now rewrite !lookup_singleton_ne by congruence. }
  assert (F : Forall2 sameInput (loginThenPassword "first")
                (loginThenPassword "second")).
  { unfold loginThenPassword.
    repeat (constructor; [apply sameInput_same|]).
    constructor; [apply sameInput_password; reflexivity|constructor]. }
  destruct (exec Rtsp (loginThenPassword "first") (fresh "eufy" account))
    as [m1|] eqn:E; [|vm_compute in E; discriminate E].
  destruct (C9_texts_do_not_depend_on_credentials Rtsp "eufy" account
              otherAccount _ _ m1 S F E) as (m2 & E2 & M & A).
  exists m1, m2. repeat split; assumption.
Defined.

(** * The event loop, state by state *)

(** ** The segments, state by state *)

Ltac seg_eval :=
  cbv -[valuesOf truthy app String.append lookup insert delete
        EufyLogger.getMessage tfaAlert captchaAlert deviceInterfaces
        hasProperty isCamera getName getModel getSerial getSoftwareVersion
        getStationSerial hasBattery properties stationName stationModel
        configOf descriptorOf handleOf listenersOf stampOf].

Lemma tryLogin_start_eq n st cl dv al ls cr cs :
  tryLogin_start
    {| name := n; storage := st; client := cl; devices := dv; alerts := al;
       listeners := ls; created := cr; calls := cs |}
  = if truthy (valuesOf st "email")
    then (AwaitsInitialize cr,
          {| name := n; storage := st; client := cl; devices := dv;
             alerts := []; listeners := ls; created := S cr;
             calls := cs ++ [HostLog EufyLogger.LogClearAlerts;
                             GetSetting "email"; GetSetting "email";
                             GetSetting "email"; GetSetting "password";
                             GetSetting "country";
                             GetSetting "trustedDeviceName";
                             Initialize (configOf st) cr] |})
    else (Threw "Eufy email and password are missing.",
          {| name := n; storage := st; client := cl; devices := dv;
             alerts := ["Enter your Eufy email and password to complete setup."];
             listeners := ls; created := cr;
             calls := cs ++ [HostLog EufyLogger.LogClearAlerts;
                             GetSetting "email";
                             HostLog (EufyLogger.Log LevelA
                               "Enter your Eufy email and password to complete setup.")] |}).
Proof.
  seg_eval. destruct (truthy (valuesOf st "email")) eqn:E; seg_eval;
    rewrite ?E; seg_eval; rewrite <- ?app_assoc; reflexivity.
Qed.

Lemma initializeClient_resume_eq c n st cl dv al ls cr cs :
  initializeClient_resume c
    {| name := n; storage := st; client := cl; devices := dv; alerts := al;
       listeners := ls; created := cr; calls := cs |}
  = (tt, {| name := n; storage := st; client := Some c; devices := dv;
            alerts := al; listeners := ls ++ listenersOf c; created := cr;
            calls := cs ++ (On c <$> allEvents) |}).
Proof.
  seg_eval. rewrite <- ?app_assoc. reflexivity.
Qed.

Lemma tryLogin_resume_eq tf cp n st cl dv al ls cr cs :
  tryLogin_resume tf cp
    {| name := n; storage := st; client := cl; devices := dv; alerts := al;
       listeners := ls; created := cr; calls := cs |}
  = let reads := if truthy cp then [GetSetting "captchaId"] else [] in
    let options :=
      {| verifyCode := tf;
         captcha := if truthy cp
                    then Some {| captchaCode := default "" cp;
                                 captchaId := valuesOf st "captchaId" |}
                    else None;
         force := false |} in
    match cl with
    | Some t =>
        (AwaitsConnect t,
         {| name := n; storage := st; client := cl; devices := dv;
            alerts := al; listeners := ls; created := cr;
            calls := cs ++ reads
                     ++ [HostLog (EufyLogger.Log LevelD "connect client");
                         Connect t options] |})
    | None =>
        (Threw "TypeError",
         {| name := n; storage := st; client := cl; devices := dv;
            alerts := al; listeners := ls; created := cr;
            calls := cs ++ reads
                     ++ [HostLog (EufyLogger.Log LevelD "connect client")] |})
    end.
Proof.
  destruct cl as [t|]; seg_eval; destruct (truthy cp); seg_eval;
    rewrite <- ?app_assoc; reflexivity.
Qed.

Lemma handler_eq v ev now n st cl dv al ls cr cs :
  handler v ev now
    {| name := n; storage := st; client := cl; devices := dv; alerts := al;
       listeners := ls; created := cr; calls := cs |}
  = (tt,
     match ev with
     | EmitDeviceAdded d =>
         {| name := n; storage := st; client := cl;
            devices := <[getSerial d := handleOf cl d]> dv;
            alerts := al; listeners := ls; created := cr;
            calls := cs ++ [infoLine n now "Device discovered: "
                              [getName d; getModel d]]
                     ++ constructorCalls v cl d
                     ++ [OnDeviceDiscovered (descriptorOf v d)] |}
     | EmitStationAdded s =>
         {| name := n; storage := st; client := cl; devices := dv;
            alerts := al; listeners := ls; created := cr;
            calls := cs ++ [infoLine n now "Station discovered: "
                              [stationName s; stationModel s;
                               "but stations are not currently supported."]] |}
     | EmitTfaRequest =>
         {| name := n; storage := st; client := cl; devices := dv;
            alerts := al ++ [tfaAlert]; listeners := ls; created := cr;
            calls := cs ++ [HostLog (EufyLogger.Log LevelA tfaAlert)] |}
     | EmitCaptchaRequest id image =>
         {| name := n; storage := <["captchaId" := id]> st; client := cl;
            devices := dv; alerts := al ++ [captchaAlert image];
            listeners := ls; created := cr;
            calls := cs ++ [HostLog (EufyLogger.Log LevelA (captchaAlert image));
                            PutSetting "captchaId" id] |}
     | EmitConnect =>
         {| name := n; storage := st; client := cl; devices := dv;
            alerts := []; listeners := ls; created := cr;
            calls := cs ++ [debugLine n now "Client connected.";
                            HostLog EufyLogger.LogClearAlerts] |}
     | EmitPushConnect =>
         {| name := n; storage := st; client := cl; devices := dv;
            alerts := al; listeners := ls; created := cr;
            calls := cs ++ [debugLine n now "Push Connected."] |}
     | EmitPushClose =>
         {| name := n; storage := st; client := cl; devices := dv;
            alerts := al; listeners := ls; created := cr;
            calls := cs ++ [debugLine n now "Push Closed."] |}
     end).
Proof.
  destruct ev as [d|s| |id image| | |]; cbn [handler].
  - unfold deviceAdded, infoLine, constructorCalls. seg_eval.
    destruct v, cl; seg_eval; rewrite <- ?app_assoc; reflexivity.
  - unfold infoLine. seg_eval. reflexivity.
  - seg_eval. rewrite getMessage_nil. reflexivity.
  - seg_eval. rewrite getMessage_nil, <- ?app_assoc. reflexivity.
  - unfold debugLine. seg_eval. rewrite <- ?app_assoc. reflexivity.
  - unfold debugLine. seg_eval. reflexivity.
  - unfold debugLine. seg_eval. reflexivity.
Qed.

Lemma releaseDevice_eq id nid now n st cl dv al ls cr cs :
  releaseDevice id nid now
    {| name := n; storage := st; client := cl; devices := dv; alerts := al;
       listeners := ls; created := cr; calls := cs |}
  = (tt, {| name := n; storage := st; client := cl; devices := dv;
            alerts := al; listeners := ls; created := cr;
            calls := cs ++ [infoLine n now
                              ("Device with id '" +:+ nid +:+ "' was removed.")
                              []] |}).
Proof. unfold infoLine. seg_eval. reflexivity. Qed.

(** ** Steps of the event loop, case by case *)

Ltac fields :=
  cbn [fst snd world pending name storage client devices alerts listeners
       created calls] in *.

(** Opens a step [H : step v l m = Some m'] into its cases, each with the
    state after the step spelled out; the case of an emitted event is
    left to [emit_invariant]. *)
Ltac step_cases H :=
  match type of H with
  | step _ ?l ?m = Some _ =>
      destruct m as [[n st cl dv al ls cr cs] p];
      destruct l as [tf cp|k x|c|c|c|c ev now|i nid now];
      cbn [step world pending] in H;
      [ rewrite tryLogin_start_eq in H;
        destruct (truthy (valuesOf st "email")) eqn:Email;
        injection H as <-
      | injection H as <-; unfold store
      | destruct (p !! c) as [[tf cp|tf cp|t]|] eqn:Lookup;
        try discriminate H;
        rewrite initializeClient_resume_eq in H; injection H as <-
      | destruct (p !! c) as [[tf cp|tf cp|t]|] eqn:Lookup;
        try discriminate H;
        rewrite tryLogin_resume_eq in H; destruct cl as [held|];
        cbv zeta in H; injection H as <-
      | destruct (p !! c) as [[tf cp|tf cp|t]|] eqn:Lookup;
        try discriminate H; injection H as <-
      | injection H as <-
      | rewrite releaseDevice_eq in H; injection H as <- ];
      fields
  end.

Lemma connectCalls_app (cs1 cs2 : list Call) :
  connectCalls (cs1 ++ cs2) = connectCalls cs1 ++ connectCalls cs2.
Proof. apply omap_app. Qed.

Lemma listenersOf_elem (c c' : ClientId) (ev : EventName) :
  (c', ev) ∈ listenersOf c <-> c' = c.
Proof.
  unfold listenersOf, allEvents. cbn [fmap list_fmap].
  rewrite !elem_of_cons, elem_of_nil. split.
  - intros H. repeat (destruct H as [H|H]; [now inversion H|]). destruct H.
  - intros ->. destruct ev; tauto.
Qed.

Lemma listenersOf_NoDup (c : ClientId) : NoDup (listenersOf c).
Proof.
  unfold listenersOf, allEvents. cbn [fmap list_fmap].
  repeat (apply NoDup_cons_2;
          [rewrite ?elem_of_cons, ?elem_of_nil; intros H;
           repeat (destruct H as [H|H]; [discriminate H|]); destruct H|]).
  apply NoDup_nil_2.
Qed.

(** ** Clients and their listeners *)

Ltac inv_hyps :=
  repeat match goal with
  | H : <[_ := _]> _ !! _ = Some _ |- _ =>
      apply lookup_insert_Some in H; destruct H as [[<- H]|[? H]]
  | H : delete _ _ !! _ = Some _ |- _ =>
      apply lookup_delete_Some in H; destruct H as [? H]
  | H : _ ∈ connectCalls (_ ++ _) |- _ =>
      rewrite connectCalls_app in H; cbn [connectCalls omap list_omap] in H
  | H : _ ∈ _ ++ _ |- _ => apply elem_of_app in H; destruct H as [H|H]
  | H : _ ∈ [] |- _ => apply elem_of_nil in H; destruct H
  | H : _ ∈ [_] |- _ => apply list_elem_of_singleton in H
  | H : _ ∈ listenersOf _ |- _ => apply listenersOf_elem in H
  | H : Some _ = Some _ |- _ => injection H as H
  | H : (_, _) = (_, _) |- _ => injection H as ? ?
  end.

Lemma consistent_frame (w w' : World) (p : gmap ClientId Pending) :
  listeners w' = listeners w -> created w' = created w ->
  client w' = client w ->
  connectCalls (calls w') = connectCalls (calls w) ->
  consistent {| world := w; pending := p |} ->
  consistent {| world := w'; pending := p |}.
Proof.
  intros L C K N [PC LC ND AS CL RC CN].
  split; fields; rewrite ?L, ?C, ?K, ?N; assumption.
Qed.

Lemma handler_frame (v : Variant) (ev : ClientEvent) (now : string) (w : World) :
  listeners (snd (handler v ev now w)) = listeners w
  /\ created (snd (handler v ev now w)) = created w
  /\ client (snd (handler v ev now w)) = client w
  /\ connectCalls (calls (snd (handler v ev now w))) = connectCalls (calls w).
Proof.
  split; [|split; [|split; [apply handler_client | apply handler_connectCalls]]];
    destruct w as [n st cl dv al ls cr cs]; rewrite handler_eq;
    destruct ev as [d| | | | | |]; reflexivity.
Qed.

Lemma step_consistent (v : Variant) (l : Label) (m m' : Machine) :
  step v l m = Some m' -> consistent m -> consistent m'.
Proof.
  intros H Inv. pose proof Inv as [PC LC ND AS CL RC CN]. step_cases H.
  8: { apply (emit_invariant v c ev now
                (fun w0 => consistent {| world := w0; pending := p |}));
         [exact Inv|].
       intros w0 Inv0. destruct (handler_frame v ev now w0) as (L & C & K & N).
       now apply (consistent_frame w0). }
  all: clear Inv.
  all: split; fields; intros; inv_hyps; subst; try discriminate;
    try match goal with
        | |- _ ∉ _ => let I := fresh in intros I; inv_hyps; subst
        end;
    try match goal with
        | I : (?c, _) ∈ ?ls, LC : forall c ev, (c, ev) ∈ ?ls -> c < ?cr |- _ =>
            pose proof (LC _ _ I)
        end;
    try (rewrite elem_of_app);
    eauto using Nat.lt_lt_succ_r with lia.
  all: try (exfalso; eapply AS; eassumption).
  all: try (right; now apply listenersOf_elem).
  all: try (apply NoDup_app; split; [exact ND|split; [|apply listenersOf_NoDup]];
            intros [c' e] I1 I2; apply listenersOf_elem in I2; subst;
            eapply AS; eassumption).
  all: try (destruct (truthy cp)).
  all: unfold infoLine in *;
    cbn [connectCalls omap list_omap app] in *; inv_hyps; subst; eauto.
Qed.

(** ** Reachable states *)

Lemma exec_invariant (v : Variant) (P : Machine -> Prop) :
  (forall l m m', step v l m = Some m' -> P m -> P m') ->
  forall ls m m', exec v ls m = Some m' -> P m -> P m'.
Proof.
  intros K ls. induction ls as [|l ls IH]; intros m m' H I; cbn [exec] in H.
  - injection H as <-. exact I.
  - destruct (step v l m) as [m1|] eqn:S; [|discriminate].
    exact (IH m1 m' H (K l m m1 S I)).
Qed.

Lemma fresh_consistent (pluginName : string) (stored : gmap string string) :
  consistent (fresh pluginName stored).
Proof.
  split; unfold fresh; fields.
  - intros c q H. now rewrite lookup_empty in H.
  - intros c ev H. now apply elem_of_nil in H.
  - apply NoDup_nil_2.
  - intros c tf cp ev H. now rewrite lookup_empty in H.
  - intros c ev H. discriminate H.
  - intros c tf cp H. now rewrite lookup_empty in H.
  - intros t o ev H. now apply elem_of_nil in H.
Qed.

Lemma reachable_consistent (v : Variant) (ls : list Label) (pluginName : string)
  (stored : gmap string string) (m : Machine) :
  exec v ls (fresh pluginName stored) = Some m -> consistent m.
Proof.
  intros H. apply (exec_invariant v consistent (step_consistent v) ls _ m H).
  apply fresh_consistent.
Qed.

Lemma listens_true (c : ClientId) (ev : EventName) (x : ClientId * EventName) :
  listens c ev x = true <-> x = (c, ev).
Proof.
  destruct x as [c' ev']. unfold listens. cbn [fst snd].
  rewrite andb_true_iff, Nat.eqb_eq, bool_decide_eq_true. split.
  - now intros [-> ->].
  - intros E. now injection E as -> ->.
Qed.

Lemma filter_listens_absent (c : ClientId) (ev : EventName)
  (l : list (ClientId * EventName)) :
  (c, ev) ∉ l -> List.filter (listens c ev) l = [].
Proof.
  induction l as [|x l IH]; intros N; [reflexivity|].
  cbn [List.filter]. rewrite not_elem_of_cons in N. destruct N as [N1 N2].
  destruct (listens c ev x) eqn:E.
  - apply listens_true in E. now subst x.
  - now apply IH.
Qed.

Lemma filter_listens_present (c : ClientId) (ev : EventName)
  (l : list (ClientId * EventName)) :
  NoDup l -> (c, ev) ∈ l -> List.filter (listens c ev) l = [(c, ev)].
Proof.
  induction l as [|x l IH]; intros N I; [now apply elem_of_nil in I|].
  rewrite NoDup_cons in N. destruct N as [N1 N2]. cbn [List.filter].
  destruct (listens c ev x) eqn:E.
  - apply listens_true in E. subst x.
    now rewrite (filter_listens_absent c ev l N1).
  - rewrite elem_of_cons in I. destruct I as [I|I].
    + subst x.
      assert (T : listens c ev (c, ev) = true) by now apply listens_true.
      rewrite T in E. discriminate E.
    + now apply IH.
Qed.

(** X1: in every state the plugin reaches from its construction, no
    listener is registered twice: an event a client emits runs its
    listener once when the plugin has initialised that client, and
    changes nothing otherwise. *)
Theorem X1_event_handled_once_or_not_at_all
  (v : Variant) (ls : list Label) (pluginName : string)
  (stored : gmap string string) (m : Machine)
  (c : ClientId) (ev : ClientEvent) (now : string) :
  exec v ls (fresh pluginName stored) = Some m ->
  emit v c ev now (world m)
  = if bool_decide ((c, eventName ev) ∈ listeners (world m))
    then snd (handler v ev now (world m))
    else world m.
Proof.
  intros H. apply reachable_consistent in H. destruct H as [_ _ ND _ _ _ _].
  unfold emit. case_bool_decide as I.
  - now rewrite (filter_listens_present _ _ _ ND I).
  - now rewrite (filter_listens_absent _ _ _ I).
Qed.

(** X2: in every state the plugin reaches from its construction, every
    client [connect] was called on has its seven listeners, and so has
    the client the plugin holds: the listeners are in place before the
    connect call that can trigger them. *)
Theorem X2_connect_only_on_listening_clients
  (v : Variant) (ls : list Label) (pluginName : string)
  (stored : gmap string string) (m : Machine) :
  exec v ls (fresh pluginName stored) = Some m ->
  (forall t o ev,
     (t, o) ∈ connectCalls (calls (world m)) -> (t, ev) ∈ listeners (world m))
  /\ (forall c ev, client (world m) = Some c -> (c, ev) ∈ listeners (world m)).
Proof.
  intros H. apply reachable_consistent in H.
  destruct H as [_ _ _ _ CL _ CN]. split; [exact CN|]. intros c ev. apply CL.
Qed.

(** X3: a [tryLogin] that resumes after [initializeClient] always finds
    a client in [this.client]: it never fails on a missing client, makes
    one [connect] call on the client held at that moment, with [force]
    false, and then waits for that call. *)
Theorem X3_resumed_tryLogin_connects
  (v : Variant) (ls : list Label) (pluginName : string)
  (stored : gmap string string) (m m' : Machine) (c : ClientId) :
  exec v ls (fresh pluginName stored) = Some m ->
  step v (InitializeClientReturns c) m = Some m' ->
  exists held o,
    client (world m) = Some held
    /\ pending m' !! c = Some (AtConnect held)
    /\ connectCalls (emitted (world m) (world m')) = [(held, o)]
    /\ force o = false.
Proof.
  intros H S. apply reachable_consistent in H.
  destruct H as [_ _ _ _ _ RC _].
  destruct m as [[n st cl dv al ls0 cr cs] p]. cbn [step world pending] in *.
  destruct (p !! c) as [[tf cp|tf cp|t]|] eqn:L; try discriminate S.
  destruct (RC c tf cp L) as [held E]. cbn [client] in E. subst cl.
  rewrite tryLogin_resume_eq in S. cbv zeta in S.
  destruct (truthy cp); injection S as <-;
    eexists; eexists; cbn [world pending];
    (split; [reflexivity|]); (split; [apply lookup_insert_eq|]);
    (erewrite emitted_app by reflexivity); split; reflexivity.
Qed.

(** ** The calls to [initialize] *)

(** Reads the [initialize], [connect] and registration calls off a list
    of calls that ends in spelled-out calls. *)
Ltac calls_simpl :=
  unfold initializeCalls, registrations, connectCalls, infoLine, debugLine,
    allEvents in *;
  rewrite ?omap_app;
  cbn [omap list_omap fmap list_fmap app EufyLogger.info EufyLogger.debug];
  rewrite ?app_nil_r.





(** ** Handles and alerts *)

Lemma handlesKept_frame (w w' : World) (p p' : gmap ClientId Pending) :
  devices w' = devices w ->
  registrations (calls w') = registrations (calls w) ->
  handlesKept {| world := w; pending := p |} ->
  handlesKept {| world := w'; pending := p' |}.
Proof.
  intros D R K device. unfold handlesKept, getDevice in *. fields.
  rewrite D, R. apply K.
Qed.

Lemma handler_handlesKept (v : Variant) (ev : ClientEvent) (now : string)
  (w : World) (p : gmap ClientId Pending) :
  handlesKept {| world := w; pending := p |} ->
  handlesKept {| world := snd (handler v ev now w); pending := p |}.
Proof.
  destruct w as [n st cl dv al ls cr cs]. rewrite handler_eq. cbn [snd].
  destruct ev as [d| | | | | |];
    try (apply handlesKept_frame; fields; [reflexivity|calls_simpl; reflexivity]).
  intros K device. unfold handlesKept, getDevice in *. fields.
  assert (R : registrations (cs ++ [infoLine n now "Device discovered: "
                                      [getName d; getModel d]]
                             ++ constructorCalls v cl d
                             ++ [OnDeviceDiscovered (descriptorOf v d)])
              = registrations cs ++ [descriptorOf v d])
    by (unfold constructorCalls; destruct v, cl; calls_simpl; reflexivity).
  rewrite R, elem_of_app, list_elem_of_singleton. intros [I| ->].
  - destruct (K device I) as (camera & L & N).
    destruct (decide (getSerial d = nativeId device)) as [S|S].
    + exists (handleOf cl d). rewrite S, lookup_insert_eq.
      split; [reflexivity|exact S].
    + exists camera. rewrite lookup_insert_ne by exact S. now split.
  - exists (handleOf cl d). cbn [descriptorOf nativeId].
    rewrite lookup_insert_eq. now split.
Qed.

Lemma step_handlesKept (v : Variant) (l : Label) (m m' : Machine) :
  step v l m = Some m' -> handlesKept m -> handlesKept m'.
Proof.
  intros H Inv. step_cases H.
  8: { apply (emit_invariant v c ev now
                (fun w0 => handlesKept {| world := w0; pending := p |}));
         [exact Inv|].
       intros w0. apply handler_handlesKept. }
  all: revert Inv; apply handlesKept_frame; fields; try reflexivity.
  all: try (destruct (truthy cp)); calls_simpl; reflexivity.
Qed.

Lemma step_devices_kept (v : Variant) (l : Label) (m m' : Machine) (id : string) :
  step v l m = Some m' ->
  is_Some (devices (world m) !! id) -> is_Some (devices (world m') !! id).
Proof.
  intros H Inv. step_cases H; try exact Inv.
  apply (emit_invariant v c ev now (fun w0 => is_Some (devices w0 !! id)));
    [exact Inv|].
  intros [n0 st0 cl0 dv0 al0 ls0 cr0 cs0] I. rewrite handler_eq. fields.
  destruct ev as [d| | | | | |]; fields;
    try exact I.
  destruct (decide (getSerial d = id)) as [->|N].
  - rewrite lookup_insert_eq. eauto.
  - now rewrite lookup_insert_ne.
Qed.

Lemma step_knownAlerts (v : Variant) (l : Label) (m m' : Machine) :
  step v l m = Some m' ->
  Forall knownAlert (alerts (world m)) -> Forall knownAlert (alerts (world m')).
Proof.
  intros H Inv. step_cases H; try exact Inv; try apply Forall_nil_2.
  - apply Forall_singleton. now left.
  - apply (emit_invariant v c ev now (fun w0 => Forall knownAlert (alerts w0)));
      [exact Inv|].
    intros [n0 st0 cl0 dv0 al0 ls0 cr0 cs0] I. rewrite handler_eq. fields.
    destruct ev as [d| | |id image| | |]; fields;
      try exact I; try apply Forall_nil_2;
      apply Forall_app; (split; [exact I|]); apply Forall_singleton.
    + right. now left.
    + right. right. now exists image.
Qed.


(** X6: after [deviceAdded] for a camera, [getDevice] of its serial
    number returns the new handle, built from the device and the client
    the plugin holds (an earlier handle under that serial is replaced);
    for every other native id [getDevice] answers as before. *)
Theorem X6_deviceAdded_then_getDevice
  (v : Variant) (eufyDevice : EufyDevice) (now : string) (w : World) (id : string) :
  isCamera eufyDevice = true ->
  getDevice id (snd (deviceAdded v eufyDevice now w))
  = if bool_decide (id = getSerial eufyDevice)
    then Some {| cameraNativeId := getSerial eufyDevice;
                 cameraClient := client w;
                 cameraDevice := eufyDevice |}
    else getDevice id w.
Proof.
  intros E. destruct w as [n st cl dv al ls cr cs].
  change (deviceAdded v eufyDevice now)
    with (handler v (EmitDeviceAdded eufyDevice) now).
  rewrite handler_eq. unfold getDevice. fields.
  case_bool_decide as I.
  - subst id. apply lookup_insert_eq.
  - apply lookup_insert_ne. congruence.
Qed.

(** X7: in every state the plugin reaches from its construction, for
    every descriptor registered with the host, [getDevice] of its native
    id returns a handle with that native id. *)
Theorem X7_registered_devices_have_handles
  (v : Variant) (ls : list Label) (pluginName : string)
  (stored : gmap string string) (m : Machine) (device : Device) :
  exec v ls (fresh pluginName stored) = Some m ->
  device ∈ registrations (calls (world m)) ->
  exists camera,
    getDevice (nativeId device) (world m) = Some camera
    /\ cameraNativeId camera = nativeId device.
Proof.
  intros H. revert device.
  apply (exec_invariant v handlesKept (step_handlesKept v) ls _ m H).
  intros device I. now apply elem_of_nil in I.
Qed.

(** X8: no run of the plugin removes a handle: a native id for which
    [getDevice] returns a handle keeps one, through logins, events and
    [releaseDevice] calls. *)
Theorem X8_handles_are_never_dropped
  (v : Variant) (ls : list Label) (m m' : Machine) (id : string) :
  exec v ls m = Some m' ->
  is_Some (getDevice id (world m)) -> is_Some (getDevice id (world m')).
Proof.
  intros H. unfold getDevice.
  apply (exec_invariant v (fun m0 => is_Some (devices (world m0) !! id))
           (fun l m1 m2 => step_devices_kept v l m1 m2 id) ls m m' H).
Qed.

(** X10: in every state the plugin reaches from its construction, each
    alert of the alert log is the alert about missing credentials, the
    two factor alert, or the captcha alert around an image a client sent. *)
Theorem X10_alerts_are_the_plugins_three
  (v : Variant) (ls : list Label) (pluginName : string)
  (stored : gmap string string) (m : Machine) (text : string) :
  exec v ls (fresh pluginName stored) = Some m ->
  text ∈ alerts (world m) ->
  text = setupAlert \/ text = tfaAlert \/ exists image, text = captchaAlert image.
Proof.
  intros H I.
  assert (F : Forall knownAlert (alerts (world m))).
  { apply (exec_invariant v (fun m0 => Forall knownAlert (alerts (world m0)))
             (step_knownAlerts v) ls _ m H). apply Forall_nil_2. }
  rewrite Forall_forall in F. exact (F text I).
Qed.

(** X11: [stationAdded] makes one call, an info line for the host's
    log; it registers nothing and leaves the device map, the alerts, the
    store, the client and the listeners as they were. *)
Theorem X11_stationAdded_only_logs
  (station : EufyStation) (now : string) (w : World) :
  let w' := snd (stationAdded station now w) in
  (exists text, emitted w w' = [HostLog (EufyLogger.Log LevelI text)])
  /\ devices w' = devices w /\ alerts w' = alerts w
  /\ storage w' = storage w /\ client w' = client w
  /\ listeners w' = listeners w.
Proof.
  destruct w as [n st cl dv al ls cr cs].
  change (stationAdded station now)
    with (handler Rtsp (EmitStationAdded station) now).
  rewrite handler_eq. fields. repeat split.
  eexists. apply emitted_app. reflexivity.
Qed.

(** ** Settings written by the host *)


(** X14: when the host writes the [email] setting, the value is stored
    and a [tryLogin] without codes starts: with an empty value it raises
    the alert about missing credentials and asks for no client; with any
    other value it clears the alerts and asks for a client with that
    value as user name. *)
Theorem X14_email_setting_starts_a_login
  (v : Variant) (m : Machine) (value : string) :
  exists m',
    exec v (hostPutSetting "email" value) m = Some m'
    /\ storage (world m') = <["email" := value]> (storage (world m))
    /\ if String.eqb value ""
       then alerts (world m')
            = ["Enter your Eufy email and password to complete setup."]
            /\ initializeCalls (emitted (world m) (world m')) = []
            /\ pending m' = pending m
       else alerts (world m') = []
            /\ (exists config,
                  initializeCalls (emitted (world m) (world m'))
                  = [(config, created (world m))]
                  /\ username config = Some value)
            /\ pending m'
               = <[created (world m) := AtInitialize None None]> (pending m).
Proof.
  destruct m as [[n st cl dv al ls cr cs] p]. fields.
  cbn [hostPutSetting settingsStorage String.eqb Ascii.eqb Bool.eqb
       noStore onPut app fst snd exec step world pending].
  unfold store. fields. rewrite tryLogin_start_eq.
  rewrite valuesOf_insert.
  destruct (String.eqb value "") eqn:E; cbn [truthy defaultValue String.eqb];
    rewrite ?E; cbn [negb exec];
    eexists; (split; [reflexivity|]); fields; (split; [reflexivity|]).
  - split; [reflexivity|]. split; [|reflexivity].
    erewrite emitted_app by (fields; reflexivity). reflexivity.
  - split; [reflexivity|]. split; [|reflexivity].
    eexists. split.
    + erewrite emitted_app by (fields; reflexivity). reflexivity.
    + unfold configOf. cbn [username]. now rewrite valuesOf_insert, E.
Qed.

(** ** The captcha challenge *)

(** In a reachable state an event of a client the plugin listens to runs
    its listener once. *)
Lemma emit_listening (v : Variant) (m : Machine) (c : ClientId)
  (ev : ClientEvent) (now : string) :
  consistent m ->
  (c, eventName ev) ∈ listeners (world m) ->
  emit v c ev now (world m) = snd (handler v ev now (world m)).
Proof.
  intros [_ _ ND _ _ _ _] I. unfold emit.
  now rewrite (filter_listens_present _ _ _ ND I).
Qed.

Lemma emit_created (v : Variant) (c : ClientId) (ev : ClientEvent) (now : string)
  (w : World) :
  created (emit v c ev now w) = created w.
Proof.
  apply (emit_invariant v c ev now (fun w0 => created w0 = created w));
    [reflexivity|].
  intros [n0 st0 cl0 dv0 al0 ls0 cr0 cs0] I. rewrite handler_eq. fields.
  destruct ev as [d| | | | | |]; exact I.
Qed.

(** The codes an attempt was called with stay with it while it waits. *)
Lemma step_attemptOf (v : Variant) (l : Label) (m m' : Machine)
  (c0 : ClientId) (tf0 cp0 : option string) :
  step v l m = Some m' -> attemptOf c0 tf0 cp0 m -> attemptOf c0 tf0 cp0 m'.
Proof.
  intros H [C A]. unfold attemptOf.
  step_cases H; rewrite ?emit_created; fields; (split; [lia|]); intros a b L;
    try (apply (A a b); exact L).
  - rewrite lookup_insert_ne in L by lia. apply (A a b), L.
  - destruct (decide (c = c0)) as [->|N].
    + rewrite lookup_insert_eq in L. destruct L as [L|L]; [discriminate L|].
      injection L as <- <-. apply (A tf cp). left. exact Lookup.
    + rewrite lookup_insert_ne in L by exact N. apply (A a b), L.
  - destruct (decide (c = c0)) as [->|N].
    + rewrite lookup_insert_eq in L. destruct L as [L|L]; discriminate L.
    + rewrite lookup_insert_ne in L by exact N. apply (A a b), L.
  - destruct (decide (c = c0)) as [->|N].
    + rewrite lookup_delete_eq in L. destruct L as [L|L]; discriminate L.
    + rewrite lookup_delete_ne in L by exact N. apply (A a b), L.
  - destruct (decide (c = c0)) as [->|N].
    + rewrite lookup_delete_eq in L. destruct L as [L|L]; discriminate L.
    + rewrite lookup_delete_ne in L by exact N. apply (A a b), L.
Qed.

(** The [connect] call of an attempt, on any schedule: it is made when
    [initializeClient] returns to the attempt, on the client held then,
    with the codes the attempt was called with and the [captchaId] read
    at that moment. *)
Lemma attempt_submits (v : Variant) (m0 m2 m3 : Machine)
  (tf0 cp0 : option string) (ls : list Label) :
  consistent m0 ->
  truthy (values (world m0) "email") = true ->
  exec v (CallTryLogin tf0 cp0 :: ls) m0 = Some m2 ->
  step v (InitializeClientReturns (created (world m0))) m2 = Some m3 ->
  exists held,
    client (world m2) = Some held
    /\ connectCalls (emitted (world m2) (world m3))
       = [(held,
           {| verifyCode := tf0;
              captcha := if truthy cp0
                         then Some {| captchaCode := default "" cp0;
                                      captchaId := values (world m2) "captchaId" |}
                         else None;
              force := false |})].
Proof.
  intros K E H S. cbn [exec] in H.
  destruct (step v (CallTryLogin tf0 cp0) m0) as [m1|] eqn:S1; [|discriminate H].
  assert (K1 : consistent m1) by exact (step_consistent v _ _ _ S1 K).
  assert (A1 : attemptOf (created (world m0)) tf0 cp0 m1).
  { destruct m0 as [[n st cl dv al ls' cr cs] p]. unfold values in E. fields.
    cbn [step world pending] in S1. rewrite tryLogin_start_eq, E in S1.
    injection S1 as <-. split; fields; [lia|].
    intros a b [L|L]; rewrite lookup_insert_eq in L;
      [injection L as <- <-; split; reflexivity|discriminate L]. }
  assert (K2 : consistent m2)
    by exact (exec_invariant v consistent (step_consistent v) ls m1 m2 H K1).
  assert (A2 : attemptOf (created (world m0)) tf0 cp0 m2).
  { apply (exec_invariant v (attemptOf (created (world m0)) tf0 cp0)
             (fun l m m' => step_attemptOf v l m m' _ _ _) ls m1 m2 H A1). }
  destruct K2 as [_ _ _ _ _ RC _]. destruct A2 as [_ A2].
  set (c0 := created (world m0)) in *. clearbody c0. clear A1 S1 K K1 E.
  destruct m2 as [[n st cl dv al ls' cr cs] p]. cbn [step world pending] in *.
  match type of S with
  | match ?x with _ => _ end = _ =>
      destruct x as [[a b|a b|t]|] eqn:L; try discriminate S
  end.
  assert (Q : a = tf0 /\ b = cp0) by (apply A2; right; reflexivity).
  destruct Q as [-> ->].
  destruct (RC c0 tf0 cp0 L) as [held Eh]. cbn [client] in Eh. subst cl.
  rewrite tryLogin_resume_eq in S. cbv zeta in S. injection S as <-.
  exists held. split; [reflexivity|]. unfold values. fields.
  erewrite emitted_app by reflexivity.
  rewrite connectCalls_app.
  destruct (truthy cp0); reflexivity.
Qed.

(** Only the host and the captcha listener write [captchaId]. *)
Lemma step_captchaId_kept (v : Variant) (l : Label) (m m' : Machine) :
  step v l m = Some m' ->
  writesCaptchaId l = false ->
  values (world m') "captchaId" = values (world m) "captchaId".
Proof.
  intros H N. unfold values. step_cases H; try reflexivity.
  - cbn [writesCaptchaId] in N. apply String.eqb_neq in N.
    now apply valuesOf_insert_ne.
  - apply (emit_invariant v c ev now
             (fun w0 => valuesOf (storage w0) "captchaId" = valuesOf st "captchaId"));
      [reflexivity|].
    intros [n0 st0 cl0 dv0 al0 ls0 cr0 cs0] I. rewrite handler_eq. fields.
    destruct ev as [d| | | | | |]; try exact I. discriminate N.
Qed.

Lemma exec_captchaId_kept (v : Variant) (ls : list Label) (m m' : Machine) :
  exec v ls m = Some m' ->
  forallb (fun l => negb (writesCaptchaId l)) ls = true ->
  values (world m') "captchaId" = values (world m) "captchaId".
Proof.
  revert m. induction ls as [|l ls IH]; intros m H N; cbn [exec forallb] in *.
  - now injection H as <-.
  - apply andb_true_iff in N. destruct N as [N1 N2].
    apply negb_true_iff in N1.
    destruct (step v l m) as [m1|] eqn:S; [|discriminate H].
    rewrite (IH m1 H N2). exact (step_captchaId_kept v l m m1 S N1).
Qed.

Lemma truthy_code (code : string) : code <> "" -> truthy (Some code) = true.
Proof.
  intros N. cbn [truthy]. apply negb_true_iff. now apply String.eqb_neq.
Qed.

(** C3, refuted: the captcha identifier is read when the attempt makes
    its [connect] call, after its two awaits, and as a setting.  A
    captcha request that arrives while the attempt waits replaces the
    identifier the code was entered for; and an empty identifier is read
    back as undefined. *)
Lemma C3_code_submitted_with_a_later_id :
  (exists m2 m3,
     exec Rtsp (captchaAsked ++ answeredAfterSecondRequest) (fresh "eufy" account)
     = Some m2
     /\ step Rtsp (InitializeClientReturns 1) m2 = Some m3
     /\ connectCalls (emitted (world m2) (world m3))
        = [(1, {| verifyCode := None;
                  captcha := Some {| captchaCode := "4711";
                                     captchaId := Some "captcha-B" |};
                  force := false |})])
  /\ (exists m2 m3,
        exec Rtsp (loginOnce
                   ++ [Emit 0 (EmitCaptchaRequest "" "data:image/png;base64,AAAA") now0;
                       CallTryLogin None (Some "4711"); InitializeResolves 1])
          (fresh "eufy" account) = Some m2
        /\ step Rtsp (InitializeClientReturns 1) m2 = Some m3
        /\ connectCalls (emitted (world m2) (world m3))
           = [(1, {| verifyCode := None;
                     captcha := Some {| captchaCode := "4711"; captchaId := None |};
                     force := false |})]).
Proof.
  split; eexists; eexists; (split; [vm_compute; reflexivity|]);
    (split; [vm_compute; reflexivity|]); vm_compute; reflexivity.
Qed.

(** C3 as amended: the listener of a captcha request raises the captcha
    alert and stores the identifier, which reads back as undefined when
    it is empty.  A [tryLogin] with a non-empty captcha code that passes
    the email check makes its [connect] call when [initializeClient]
    returns to it, whatever happened meanwhile, with the code and the
    [captchaId] setting as it reads at that moment; that is the
    identifier of the request if nothing wrote the setting in between. *)
Theorem C3_captcha_code_goes_with_id_read_at_connect
  (v : Variant) (ls0 : list Label) (pluginName : string)
  (stored : gmap string string) (m0 : Machine)
  (c : ClientId) (id image now : string) :
  exec v ls0 (fresh pluginName stored) = Some m0 ->
  (c, CaptchaRequestEv) ∈ listeners (world m0) ->
  let w1 := emit v c (EmitCaptchaRequest id image) now (world m0) in
  (storage w1 = <["captchaId" := id]> (storage (world m0))
   /\ alerts w1 = alerts (world m0) ++ [captchaAlert image]
   /\ values w1 "captchaId" = if String.eqb id "" then None else Some id)
  /\ forall (twoFactorCode : option string) (code : string)
       (ls : list Label) (m2 m3 : Machine),
       truthy (values (world m0) "email") = true ->
       code <> "" ->
       exec v (Emit c (EmitCaptchaRequest id image) now
               :: CallTryLogin twoFactorCode (Some code) :: ls) m0 = Some m2 ->
       step v (InitializeClientReturns (created (world m0))) m2 = Some m3 ->
       exists held,
         client (world m2) = Some held
         /\ connectCalls (emitted (world m2) (world m3))
            = [(held,
                {| verifyCode := twoFactorCode;
                   captcha := Some {| captchaCode := code;
                                      captchaId := values (world m2) "captchaId" |};
                   force := false |})]
         /\ (forallb (fun l => negb (writesCaptchaId l)) ls = true ->
             values (world m2) "captchaId"
             = if String.eqb id "" then None else Some id).
Proof.
  intros H I w1. apply reachable_consistent in H.
  assert (W : w1 = snd (handler v (EmitCaptchaRequest id image) now (world m0)))
    by exact (emit_listening v m0 c (EmitCaptchaRequest id image) now H I).
  assert (A : storage w1 = <["captchaId" := id]> (storage (world m0))
              /\ alerts w1 = alerts (world m0) ++ [captchaAlert image]
              /\ values w1 "captchaId" = (if String.eqb id "" then None else Some id)
              /\ created w1 = created (world m0)).
  { rewrite W. destruct m0 as [[n st cl dv al ls' cr cs] p]. fields.
    rewrite handler_eq. unfold values. fields.
    repeat split. apply valuesOf_insert. }
  destruct A as (A1 & A2 & A3 & A4).
  split; [repeat split; assumption|].
  intros tf code ls m2 m3 E N X S.
  change (exec v (Emit c (EmitCaptchaRequest id image) now
                  :: CallTryLogin tf (Some code) :: ls) m0)
    with (exec v (CallTryLogin tf (Some code) :: ls)
            {| world := w1; pending := pending m0 |}) in X.
  assert (K1 : consistent {| world := w1; pending := pending m0 |}).
  { apply (step_consistent v (Emit c (EmitCaptchaRequest id image) now) m0);
      [reflexivity|exact H]. }
  assert (E1 : truthy (values w1 "email") = true).
  { unfold values in *. rewrite A1, valuesOf_insert_ne by discriminate. exact E. }
  rewrite <- A4 in S.
  destruct (attempt_submits v _ m2 m3 tf (Some code) ls K1 E1 X S)
    as (held & Ch & Cc).
  exists held. split; [exact Ch|]. rewrite (truthy_code code N) in Cc.
  split; [exact Cc|].
  intros F. rewrite <- A3.
  apply (exec_captchaId_kept v (CallTryLogin tf (Some code) :: ls) _ m2 X).
  cbn [forallb writesCaptchaId negb andb]. exact F.
Qed.

Lemma C3_captcha_code_goes_with_id_read_at_connect_witness :
  exists m0 m2 m3,
    exec Rtsp loginOnce (fresh "eufy" account) = Some m0
    /\ exec Rtsp [Emit 0 (EmitCaptchaRequest "captcha-A" "data:image/png;base64,AAAA") now0;
                  CallTryLogin None (Some "4711"); InitializeResolves 1] m0
       = Some m2
    /\ step Rtsp (InitializeClientReturns 1) m2 = Some m3
    /\ exists held,
         client (world m2) = Some held
         /\ connectCalls (emitted (world m2) (world m3))
            = [(held,
                {| verifyCode := None;
                   captcha := Some {| captchaCode := "4711";
                                      captchaId := values (world m2) "captchaId" |};
                   force := false |})]
         /\ values (world m2) "captchaId" = Some "captcha-A".
Proof.
  eexists. eexists. eexists. split; [vm_compute; reflexivity|].
  match goal with
  | |- exec _ _ ?m0 = _ /\ _ =>
      split; [vm_compute; reflexivity|]; split; [vm_compute; reflexivity|];
      match goal with
      | |- exists held, client (world ?m2) = _
                        /\ connectCalls (emitted _ (world ?m3)) = _ /\ _ =>
          destruct (proj2 (C3_captcha_code_goes_with_id_read_at_connect Rtsp loginOnce
                             "eufy" account m0 0 "captcha-A"
                             "data:image/png;base64,AAAA" now0 eq_refl
                             ltac:(apply list_elem_of_In; vm_compute; auto 10))
                      None "4711" [InitializeResolves 1] m2 m3
                      eq_refl ltac:(discriminate) eq_refl eq_refl)
            as (held & Ch & Cc & Ck);
          exists held; split; [exact Ch|]; split; [exact Cc|]; exact (Ck eq_refl)
      end
  end.
Defined.

(** ** The connect event *)

(** C4, refuted: after a captcha request and a [connect] event the
    captcha identifier is still stored, and the next attempt that
    carries a captcha code submits it. *)
Lemma C4_captchaId_outlives_connect :
  exists m m2 m3,
    exec Rtsp captchaThenConnect (fresh "eufy" account) = Some m
    /\ alerts (world m) = []
    /\ storage (world m) !! "captchaId" = Some "captcha-A"
    /\ exec Rtsp [CallTryLogin None (Some "4711"); InitializeResolves 1] m = Some m2
    /\ step Rtsp (InitializeClientReturns 1) m2 = Some m3
    /\ connectCalls (emitted (world m2) (world m3))
       = [(1, {| verifyCode := None;
                 captcha := Some {| captchaCode := "4711";
                                    captchaId := Some "captcha-A" |};
                 force := false |})].
Proof.
  eexists. eexists. eexists. split; [vm_compute; reflexivity|].
  split; [vm_compute; reflexivity|]. split; [vm_compute; reflexivity|].
  split; [vm_compute; reflexivity|]. split; [vm_compute; reflexivity|].
  vm_compute. reflexivity.
Qed.

(** C4 as amended: a [connect] event of a client the plugin listens to
    leaves the alert log empty and the settings as they are.  The
    captcha identifier is a setting: it stays stored, and a later
    [tryLogin] with a captcha code submits it unless something wrote the
    setting in between. *)
Theorem C4_connect_clears_alerts_keeps_captchaId
  (v : Variant) (ls0 : list Label) (pluginName : string)
  (stored : gmap string string) (m : Machine) (c : ClientId) (now : string) :
  exec v ls0 (fresh pluginName stored) = Some m ->
  (c, ConnectEv) ∈ listeners (world m) ->
  let w' := emit v c EmitConnect now (world m) in
  alerts w' = []
  /\ storage w' = storage (world m)
  /\ client w' = client (world m)
  /\ forall (twoFactorCode : option string) (code : string)
       (ls : list Label) (m2 m3 : Machine),
       truthy (values (world m) "email") = true ->
       code <> "" ->
       forallb (fun l => negb (writesCaptchaId l)) ls = true ->
       exec v (Emit c EmitConnect now
               :: CallTryLogin twoFactorCode (Some code) :: ls) m = Some m2 ->
       step v (InitializeClientReturns (created (world m))) m2 = Some m3 ->
       exists held,
         client (world m2) = Some held
         /\ connectCalls (emitted (world m2) (world m3))
            = [(held,
                {| verifyCode := twoFactorCode;
                   captcha := Some {| captchaCode := code;
                                      captchaId := values (world m) "captchaId" |};
                   force := false |})].
Proof.
  intros H I w'. apply reachable_consistent in H.
  assert (W : w' = snd (handler v EmitConnect now (world m)))
    by exact (emit_listening v m c EmitConnect now H I).
  assert (A : alerts w' = [] /\ storage w' = storage (world m)
              /\ client w' = client (world m)
              /\ created w' = created (world m)).
  { rewrite W. destruct m as [[n st cl dv al ls' cr cs] p]. fields.
    rewrite handler_eq. fields. repeat split. }
  destruct A as (A1 & A2 & A3 & A4).
  split; [exact A1|]. split; [exact A2|]. split; [exact A3|].
  intros tf code ls m2 m3 E N F X S.
  change (exec v (Emit c EmitConnect now :: CallTryLogin tf (Some code) :: ls) m)
    with (exec v (CallTryLogin tf (Some code) :: ls)
            {| world := w'; pending := pending m |}) in X.
  assert (K1 : consistent {| world := w'; pending := pending m |}).
  { apply (step_consistent v (Emit c EmitConnect now) m); [reflexivity|exact H]. }
  assert (E1 : truthy (values w' "email") = true).
  { unfold values in *. rewrite A2. exact E. }
  rewrite <- A4 in S.
  destruct (attempt_submits v _ m2 m3 tf (Some code) ls K1 E1 X S)
    as (held & Ch & Cc).
  exists held. split; [exact Ch|]. rewrite (truthy_code code N) in Cc.
  rewrite Cc. cbn [default].
  assert (V : values (world m2) "captchaId" = values (world m) "captchaId").
  { transitivity (values w' "captchaId").
    - apply (exec_captchaId_kept v (CallTryLogin tf (Some code) :: ls)
               {| world := w'; pending := pending m |} m2 X).
      cbn [forallb writesCaptchaId negb andb]. exact F.
    - unfold values. now rewrite A2. }
  now rewrite V.
Qed.

Lemma C4_connect_clears_alerts_keeps_captchaId_witness :
  exists m m2 m3,
    exec Rtsp captchaAsked (fresh "eufy" account) = Some m
    /\ exec Rtsp [Emit 0 EmitConnect now0; CallTryLogin None (Some "4711");
                  InitializeResolves 1] m = Some m2
    /\ step Rtsp (InitializeClientReturns 1) m2 = Some m3
    /\ alerts (emit Rtsp 0 EmitConnect now0 (world m)) = []
    /\ storage (emit Rtsp 0 EmitConnect now0 (world m)) = storage (world m)
    /\ exists held,
         client (world m2) = Some held
         /\ connectCalls (emitted (world m2) (world m3))
            = [(held,
                {| verifyCode := None;
                   captcha := Some {| captchaCode := "4711";
                                      captchaId := values (world m) "captchaId" |};
                   force := false |})].
Proof.
  eexists. eexists. eexists. split; [vm_compute; reflexivity|].
  split; [vm_compute; reflexivity|]. split; [vm_compute; reflexivity|].
  match goal with
  | |- alerts (emit _ _ _ _ (world ?m)) = _ /\ _ /\
       exists held, client (world ?m2) = _ /\ connectCalls (emitted _ (world ?m3)) = _ =>
      destruct (C4_connect_clears_alerts_keeps_captchaId Rtsp captchaAsked
                  "eufy" account m 0 now0 eq_refl
                  ltac:(apply list_elem_of_In; vm_compute; auto 10))
        as (A1 & A2 & _ & K);
      split; [exact A1|]; split; [exact A2|];
      exact (K None "4711" [InitializeResolves 1] m2 m3
               eq_refl ltac:(discriminate) eq_refl eq_refl eq_refl)
  end.
Defined.

(** ** The alert log *)

(** X9: the alert log after each step, on every schedule.  A call of
    [tryLogin] leaves it empty when the email check passes and holding
    the one alert about the missing credentials when it does not; the
    two resumptions of an attempt, the host's writes and [releaseDevice]
    leave it as it is; an event of a client the plugin listens to
    appends the two factor or the captcha alert, or clears the log when
    it is [connect]; an event of any other client changes nothing. *)
Theorem X9_alert_log_after_each_step
  (v : Variant) (ls0 : list Label) (pluginName : string)
  (stored : gmap string string) (m m' : Machine) (l : Label) :
  exec v ls0 (fresh pluginName stored) = Some m ->
  step v l m = Some m' ->
  alerts (world m')
  = match l with
    | CallTryLogin _ _ =>
        if truthy (values (world m) "email") then []
        else ["Enter your Eufy email and password to complete setup."]
    | Emit c ev _ =>
        if bool_decide ((c, eventName ev) ∈ listeners (world m)) then
          match ev with
          | EmitTfaRequest => alerts (world m) ++ [tfaAlert]
          | EmitCaptchaRequest _ image => alerts (world m) ++ [captchaAlert image]
          | EmitConnect => []
          | _ => alerts (world m)
          end
        else alerts (world m)
    | _ => alerts (world m)
    end.
Proof.
  intros H S. apply reachable_consistent in H. destruct H as [_ _ ND _ _ _ _].
  unfold values. step_cases S; rewrite ?Email; try reflexivity.
  unfold emit. fields. case_bool_decide as I.
  - rewrite (filter_listens_present _ _ _ ND I). cbn [fold_left].
    rewrite handler_eq. fields. destruct ev as [d| | | | | |]; reflexivity.
  - now rewrite (filter_listens_absent _ _ _ I).
Qed.

Lemma X9_alert_log_after_each_step_witness :
  exists m m',
    exec Rtsp captchaAsked (fresh "eufy" account) = Some m
    /\ step Rtsp (Emit 0 EmitTfaRequest now0) m = Some m'
    /\ alerts (world m')
       = if bool_decide ((0, eventName EmitTfaRequest) ∈ listeners (world m))
         then alerts (world m) ++ [tfaAlert]
         else alerts (world m).
Proof.
  eexists. eexists. split; [vm_compute; reflexivity|].
  match goal with
  | |- step _ _ ?m = _ /\ _ =>
      split; [vm_compute; reflexivity|];
      match goal with
      | |- alerts (world ?m') = _ =>
          exact (X9_alert_log_after_each_step Rtsp captchaAsked "eufy" account
                   m m' (Emit 0 EmitTfaRequest now0) eq_refl eq_refl)
      end
  end.
Defined.

(** ** The captcha setting *)

(** X13: when the host writes a non-empty [captcha] setting and an email
    is stored, the value is not stored and an attempt starts with it as
    captcha code.  On every schedule, when [initializeClient] returns to
    that attempt it calls [connect] on the client held then, with the
    written value, the [captchaId] setting as it reads at that moment
    and no [verifyCode]; that is the [captchaId] held at the write if
    nothing wrote the setting since. *)
Theorem X13_captcha_setting_reaches_connect
  (v : Variant) (ls0 ls : list Label) (pluginName : string)
  (stored : gmap string string) (m0 m2 m3 : Machine) (code : string) :
  exec v ls0 (fresh pluginName stored) = Some m0 ->
  truthy (values (world m0) "email") = true ->
  code <> "" ->
  exec v (hostPutSetting "captcha" code ++ ls) m0 = Some m2 ->
  step v (InitializeClientReturns (created (world m0))) m2 = Some m3 ->
  (exists m1,
     exec v (hostPutSetting "captcha" code) m0 = Some m1
     /\ storage (world m1) = storage (world m0)
     /\ pending m1
        = <[created (world m0) := AtInitialize None (Some code)]> (pending m0))
  /\ (exists held,
        client (world m2) = Some held
        /\ connectCalls (emitted (world m2) (world m3))
           = [(held,
               {| verifyCode := None;
                  captcha := Some {| captchaCode := code;
                                     captchaId := values (world m2) "captchaId" |};
                  force := false |})])
  /\ (forallb (fun l => negb (writesCaptchaId l)) ls = true ->
      values (world m2) "captchaId" = values (world m0) "captchaId").
Proof.
  intros H E N X S. apply reachable_consistent in H.
  change (hostPutSetting "captcha" code) with [CallTryLogin None (Some code)] in *.
  cbn [app] in X.
  split; [|split].
  - destruct m0 as [[n st cl dv al ls' cr cs] p]. unfold values in E. fields.
    cbn [exec step world pending]. rewrite tryLogin_start_eq, E.
    eexists. split; [reflexivity|]. split; reflexivity.
  - destruct (attempt_submits v m0 m2 m3 None (Some code) ls H E X S)
      as (held & Ch & Cc).
    exists held. split; [exact Ch|]. rewrite (truthy_code code N) in Cc. exact Cc.
  - intros F.
    apply (exec_captchaId_kept v (CallTryLogin None (Some code) :: ls) m0 m2 X).
    cbn [forallb writesCaptchaId negb andb]. exact F.
Qed.

Lemma X13_captcha_setting_reaches_connect_witness :
  exists m0 m2 m3,
    exec Rtsp captchaAsked (fresh "eufy" account) = Some m0
    /\ exec Rtsp (hostPutSetting "captcha" "4711" ++ [InitializeResolves 1]) m0
       = Some m2
    /\ step Rtsp (InitializeClientReturns 1) m2 = Some m3
    /\ (exists held,
          client (world m2) = Some held
          /\ connectCalls (emitted (world m2) (world m3))
             = [(held,
                 {| verifyCode := None;
                    captcha := Some {| captchaCode := "4711";
                                       captchaId := values (world m2) "captchaId" |};
                    force := false |})])
    /\ values (world m2) "captchaId" = values (world m0) "captchaId".
Proof.
  eexists. eexists. eexists. split; [vm_compute; reflexivity|].
  match goal with
  | |- exec _ _ ?m0 = _ /\ _ =>
      split; [vm_compute; reflexivity|]; split; [vm_compute; reflexivity|];
      match goal with
      | |- (exists held, client (world ?m2) = _
                         /\ connectCalls (emitted _ (world ?m3)) = _) /\ _ =>
          destruct (X13_captcha_setting_reaches_connect Rtsp captchaAsked
                      [InitializeResolves 1] "eufy" account m0 m2 m3 "4711"
                      eq_refl eq_refl ltac:(discriminate) eq_refl eq_refl)
            as (_ & K & F);
          split; [exact K|exact (F eq_refl)]
      end
  end.
Defined.

(** ** Logged text *)

Lemma noControl_app (s t : string) :
  noControl (s +:+ t) = noControl s && noControl t.
Proof.
  induction s as [|c s IH]; [reflexivity|].
  change (String c s +:+ t) with (String c (s +:+ t)).
  cbn [noControl]. now rewrite IH, andb_assoc.
Qed.

Lemma QuoteJSONChar_noControl (c : ascii) : noControl (QuoteJSONChar c) = true.
Proof. destruct c as [[] [] [] [] [] [] [] []]; reflexivity. Qed.

Lemma QuoteJSONString_noControl (s : string) :
  noControl (QuoteJSONString s) = true.
Proof.
  unfold QuoteJSONString. rewrite !noControl_app.
  assert (B : noControl (QuoteJSONBody s) = true).
  { induction s as [|c s IH]; [reflexivity|]. cbn [QuoteJSONBody].
    now rewrite noControl_app, QuoteJSONChar_noControl, IH. }
  now rewrite B.
Qed.

Lemma joinWith_noControl (l : list string) :
  Forall (fun s => noControl s = true) l -> noControl (joinWith "," l) = true.
Proof.
  induction 1 as [|x l H F IH]; [reflexivity|].
  destruct l as [|y l]; [exact H|].
  change (joinWith "," (x :: y :: l)) with (x +:+ "," +:+ joinWith "," (y :: l)).
  now rewrite !noControl_app, H, IH.
Qed.

(** X15: if the message has no control character, the text [getMessage]
    builds has none either, whatever the optional parameters hold: line
    breaks and other control characters in them are escaped. *)
Theorem X15_logged_parameters_carry_no_control_character
  (message : option string) (optionalParams : list string) :
  noControl (default "" message) = true ->
  noControl (EufyLogger.getMessage message optionalParams) = true.
Proof.
  intros M. unfold EufyLogger.getMessage.
  assert (M' : noControl (if truthy message then default "" message else "") = true)
    by (destruct (truthy message); [exact M|reflexivity]).
  destruct (Nat.ltb 0 (List.length optionalParams)); [|exact M'].
  unfold JSON_stringify. rewrite !noControl_app, M'.
  rewrite joinWith_noControl; [reflexivity|].
  apply Forall_fmap, Forall_forall. intros s _. apply QuoteJSONString_noControl.
Qed.

(** ** The motion sensor of the [Snapshot] camera *)

Lemma fold_left_handle (X : Type) (state : bool) (l : list X) (camera : CameraObject) :
  fold_left (fun c _ => handle state c) l camera
  = match l with [] => camera | _ :: _ => handle state camera end.
Proof.
  destruct l as [|x l]; [reflexivity|]. cbn [fold_left].
  induction l as [|y l IH]; [reflexivity|]. exact IH.
Qed.

Lemma deviceEmit_eq (e : string * bool) (camera : CameraObject) :
  deviceEmit (fst e) (snd e) camera
  = if existsb (String.eqb (fst e)) (deviceListeners camera)
    then handle (snd e) camera
    else camera.
Proof.
  unfold deviceEmit. rewrite fold_left_handle.
  generalize (deviceListeners camera). intros l.
  induction l as [|x l IH]; [reflexivity|].
  cbn [List.filter existsb]. destruct (String.eqb (fst e) x); [reflexivity|].
  exact IH.
Qed.

(** A camera without listeners is deaf to the events of its device. *)
Lemma deviceEvents_silent (events : list (string * bool)) (camera : CameraObject) :
  deviceListeners camera = [] -> deviceEvents events camera = camera.
Proof.
  intros H. unfold deviceEvents.
  induction events as [|e events IH]; [reflexivity|].
  cbn [fold_left]. rewrite deviceEmit_eq, H. exact IH.
Qed.

Lemma deviceEvents_listening (events : list (string * bool)) (camera : CameraObject) :
  deviceListeners camera = detectionEvents ->
  station (deviceEvents events camera) = station camera
  /\ cameraOn (deviceEvents events camera) = cameraOn camera
  /\ motionDetected (deviceEvents events camera)
     = match last (List.filter isDetection events) with
       | Some e => Some (snd e)
       | None => motionDetected camera
       end.
Proof.
  unfold deviceEvents. revert camera.
  induction events as [|e events IH]; intros camera H; [repeat split|].
  cbn [fold_left List.filter]. rewrite deviceEmit_eq, H.
  fold (isDetection e). destruct (isDetection e).
  - destruct (IH (handle (snd e) camera) H) as (I1 & I2 & I3).
    rewrite I1, I2, I3, last_cons.
    destruct (last (List.filter isDetection events)); repeat split.
  - apply IH, H.
Qed.

(** X16: [motionDetected] of the [Snapshot] camera.  Until [initialize]
    has been given the station the camera has no listener on its device:
    events of the device change nothing, and [motionDetected] stays what
    the host holds for it.  Once [initialize] has completed, after any
    series of events [motionDetected] is the state of the latest event
    among the six kinds the camera listens to, whatever the kind, and is
    unchanged if there was none; the station and [on] stay as
    [initialize] set them. *)
Theorem X16_motionDetected_follows_events_after_initialize
  (hostOn hostMotionDetected : option bool)
  (before after : list (string * bool))
  (stationSerial : string) (isEnabled : bool) :
  let camera := constructed hostOn hostMotionDetected in
  let initialized :=
    initialize_resume stationSerial isEnabled (deviceEvents before camera) in
  deviceEvents before camera = camera
  /\ motionDetected (deviceEvents after initialized)
     = match last (List.filter isDetection after) with
       | Some e => Some (snd e)
       | None => hostMotionDetected
       end
  /\ station (deviceEvents after initialized) = Some stationSerial
  /\ cameraOn (deviceEvents after initialized) = Some isEnabled.
Proof.
  intros camera initialized.
  assert (B : deviceEvents before camera = camera)
    by now apply deviceEvents_silent.
  split; [exact B|]. subst initialized. rewrite B.
  destruct (deviceEvents_listening after
              (initialize_resume stationSerial isEnabled camera) eq_refl)
    as (I1 & I2 & I3).
  rewrite I1, I2, I3. repeat split.
Qed.

(** ** Handles and logins *)

(** X17: a step of the plugin other than the announcement of a device
    leaves the device map as it is: a new login replaces [this.client]
    but not the client inside the handles already made. *)
Theorem X17_handles_change_only_on_discovery
  (v : Variant) (l : Label) (m m' : Machine) :
  step v l m = Some m' ->
  isDeviceAdded l = false ->
  devices (world m') = devices (world m).
Proof.
  intros H N. step_cases H; try reflexivity.
  apply (emit_invariant v c ev now (fun w0 => devices w0 = dv)); [reflexivity|].
  intros [n0 st0 cl0 dv0 al0 ls0 cr0 cs0] I. rewrite handler_eq. fields.
  destruct ev as [d| | | | | |]; [discriminate N|..]; exact I.
Qed.

Lemma X1_event_handled_once_or_not_at_all_witness :
  exists m,
    exec Rtsp loginOnce (fresh "eufy" account) = Some m
    /\ emit Rtsp 0 EmitTfaRequest now0 (world m)
       = if bool_decide ((0, eventName EmitTfaRequest) ∈ listeners (world m))
         then snd (handler Rtsp EmitTfaRequest now0 (world m))
         else world m.
Proof.
  eexists. split; [vm_compute; reflexivity|].
  match goal with
  | |- emit _ _ _ _ (world ?m) = _ =>
      exact (X1_event_handled_once_or_not_at_all Rtsp loginOnce "eufy" account m
               0 EmitTfaRequest now0 eq_refl)
  end.
Defined.

(** X18: a step of the plugin in which the host does not write the store
    leaves every setting but [captchaId] as it is: the plugin stores
    nothing but the captcha identifier, and neither credentials nor the
    codes it is given. *)
Theorem X18_plugin_writes_only_captchaId
  (v : Variant) (l : Label) (m m' : Machine) (key : string) :
  step v l m = Some m' ->
  isStoreSetting l = false ->
  key <> "captchaId" ->
  storage (world m') !! key = storage (world m) !! key.
Proof.
  intros H N K. step_cases H; try reflexivity; [discriminate N|].
  apply (emit_invariant v c ev now (fun w0 => storage w0 !! key = st !! key));
    [reflexivity|].
  intros [n0 st0 cl0 dv0 al0 ls0 cr0 cs0] I. rewrite handler_eq. fields.
  destruct ev as [d| | | | | |]; fields;
    try exact I.
  rewrite lookup_insert_ne by congruence. exact I.
Qed.

(** ** Sample runs of the properties above *)

Lemma X2_connect_only_on_listening_clients_witness :
  exists m,
    exec Rtsp twoAttempts (fresh "eufy" account) = Some m
    /\ (forall t o ev,
          (t, o) ∈ connectCalls (calls (world m)) -> (t, ev) ∈ listeners (world m))
    /\ (forall c ev, client (world m) = Some c -> (c, ev) ∈ listeners (world m)).
Proof.
  eexists. split; [vm_compute; reflexivity|].
  match goal with
  | |- (forall t o ev, _ ∈ connectCalls (calls (world ?m)) -> _) /\ _ =>
      exact (X2_connect_only_on_listening_clients Rtsp twoAttempts "eufy" account
               m eq_refl)
  end.
Defined.

Lemma X3_resumed_tryLogin_connects_witness :
  exists m m',
    exec Rtsp [CallTryLogin (Some "123456") None; InitializeResolves 0]
      (fresh "eufy" account) = Some m
    /\ step Rtsp (InitializeClientReturns 0) m = Some m'
    /\ exists held o,
         client (world m) = Some held
         /\ pending m' !! 0 = Some (AtConnect held)
         /\ connectCalls (emitted (world m) (world m')) = [(held, o)]
         /\ force o = false.
Proof.
  eexists. eexists. split; [vm_compute; reflexivity|].
  split; [vm_compute; reflexivity|].
  match goal with
  | |- exists held o, client (world ?m) = _ /\ pending ?m' !! _ = _ /\ _ =>
      exact (X3_resumed_tryLogin_connects Rtsp
               [CallTryLogin (Some "123456") None; InitializeResolves 0]
               "eufy" account m m' 0 eq_refl eq_refl)
  end.
Defined.


Lemma X6_deviceAdded_then_getDevice_witness :
  isCamera batteryCamera = true
  /\ getDevice "T8210P0000000001"
       (snd (deviceAdded Snapshot batteryCamera now0 (world (fresh "eufy" account))))
     = Some {| cameraNativeId := "T8210P0000000001"; cameraClient := None;
               cameraDevice := batteryCamera |}.
Proof.
  split; [reflexivity|].
  exact (X6_deviceAdded_then_getDevice Snapshot batteryCamera now0
           (world (fresh "eufy" account)) "T8210P0000000001" eq_refl).
Defined.

Lemma X7_registered_devices_have_handles_witness :
  exists m,
    exec Rtsp discoverBoth (fresh "eufy" account) = Some m
    /\ descriptorOf Rtsp batteryCamera ∈ registrations (calls (world m))
    /\ exists camera,
         getDevice "T8210P0000000001" (world m) = Some camera
         /\ cameraNativeId camera = "T8210P0000000001".
Proof.
  eexists. split; [vm_compute; reflexivity|].
  match goal with
  | |- _ ∈ registrations (calls (world ?m)) /\ _ =>
      assert (I : descriptorOf Rtsp batteryCamera
                  ∈ registrations (calls (world m)))
        by (apply list_elem_of_In; vm_compute; left; reflexivity);
      split; [exact I|];
      exact (X7_registered_devices_have_handles Rtsp discoverBoth "eufy" account m
               (descriptorOf Rtsp batteryCamera) eq_refl I)
  end.
Defined.

Lemma X8_handles_are_never_dropped_witness :
  exists m m',
    exec Rtsp (removelast discoverBoth) (fresh "eufy" account) = Some m
    /\ exec Rtsp [CallReleaseDevice "7" "T8210P0000000001" "11/3/2026, 9:05:00 AM";
                  CallTryLogin None None] m = Some m'
    /\ is_Some (getDevice "T8210P0000000001" (world m))
    /\ is_Some (getDevice "T8210P0000000001" (world m')).
Proof.
  eexists. eexists. split; [vm_compute; reflexivity|].
  split; [vm_compute; reflexivity|].
  match goal with
  | |- is_Some (getDevice _ (world ?m)) /\ is_Some (getDevice _ (world ?m')) =>
      assert (I : is_Some (getDevice "T8210P0000000001" (world m)))
        by (vm_compute; eauto);
      split; [exact I|];
      exact (X8_handles_are_never_dropped Rtsp
               [CallReleaseDevice "7" "T8210P0000000001" "11/3/2026, 9:05:00 AM";
                CallTryLogin None None]
               m m' "T8210P0000000001" eq_refl I)
  end.
Defined.

Lemma X10_alerts_are_the_plugins_three_witness :
  exists m,
    exec Rtsp (loginOnce ++ [Emit 0 EmitTfaRequest now0]) (fresh "eufy" account)
    = Some m
    /\ tfaAlert ∈ alerts (world m)
    /\ (tfaAlert = setupAlert \/ tfaAlert = tfaAlert
        \/ exists image, tfaAlert = captchaAlert image).
Proof.
  eexists. split; [vm_compute; reflexivity|].
  match goal with
  | |- _ ∈ alerts (world ?m) /\ _ =>
      assert (I : tfaAlert ∈ alerts (world m))
        by (apply list_elem_of_In; vm_compute; left; reflexivity);
      split; [exact I|];
      exact (X10_alerts_are_the_plugins_three Rtsp
               (loginOnce ++ [Emit 0 EmitTfaRequest now0]) "eufy" account m
               tfaAlert eq_refl I)
  end.
Defined.


Lemma X15_logged_parameters_carry_no_control_character_witness :
  noControl "Device discovered: " = true
  /\ noControl (EufyLogger.getMessage (Some "Device discovered: ")
                  ["Front" +:+ String (ascii_of_nat 10) "door"; "T8210"]) = true.
Proof.
  split; [reflexivity|].
  exact (X15_logged_parameters_carry_no_control_character
           (Some "Device discovered: ")
           ["Front" +:+ String (ascii_of_nat 10) "door"; "T8210"] eq_refl).
Defined.

Lemma X17_handles_change_only_on_discovery_witness :
  exists m m',
    exec Rtsp (removelast discoverBoth) (fresh "eufy" account) = Some m
    /\ step Rtsp (CallTryLogin None None) m = Some m'
    /\ devices (world m') = devices (world m).
Proof.
  eexists. eexists. split; [vm_compute; reflexivity|].
  split; [vm_compute; reflexivity|].
  match goal with
  | |- devices (world ?m') = devices (world ?m) =>
      exact (X17_handles_change_only_on_discovery Rtsp (CallTryLogin None None)
               m m' eq_refl eq_refl)
  end.
Defined.

Lemma X18_plugin_writes_only_captchaId_witness :
  exists m m',
    exec Rtsp loginOnce (fresh "eufy" account) = Some m
    /\ step Rtsp (Emit 0 (EmitCaptchaRequest "captcha-1" "data:image/png;base64,AAAA") now0) m
       = Some m'
    /\ storage (world m') !! "password" = storage (world m) !! "password"
    /\ storage (world m') !! "captchaId" = Some "captcha-1".
Proof.
  eexists. eexists. split; [vm_compute; reflexivity|].
  split; [vm_compute; reflexivity|].
  match goal with
  | |- storage (world ?m') !! _ = storage (world ?m) !! _ /\ _ =>
      split;
      [exact (X18_plugin_writes_only_captchaId Rtsp
                (Emit 0 (EmitCaptchaRequest "captcha-1" "data:image/png;base64,AAAA") now0)
                m m' "password" eq_refl eq_refl ltac:(discriminate))
      | vm_compute; reflexivity]
  end.
Defined.
